(** * bot-rapage: the per-guild playback queue of [bot.py]

    A shallow embedding of the playback orchestration of [bot.py]
    (a discord.py music bot): the per-guild state ([GuildMusicState]), the
    registry ([music_states], [get_music_state]), the voice-session helper
    ([ensure_voice]), the scheduler ([start_playback] with its [after_playback]
    callback and its five-second idle timer) and the slash commands.

    How the asynchronous program is cut into steps.  The bot runs on one
    asyncio event loop, so the code between two [await]s runs without
    interleaving.  The suspension points that decide the behaviour studied
    below are kept as separate steps of the model:
    - [await asyncio.sleep(5)] in [start_playback]: the coroutine is parked in
      [timers] with the time at which its sleep ends, and resumed by
      [grace_elapsed] once the clock has reached it;
    - [await vc.disconnect()] in the code after that sleep: the coroutine is
      parked in [closing] and resumed by [disconnect_completed];
    - the [after] callback of [vc.play]: the audio player thread hands
      [start_playback(guild)] to the loop ([asyncio.run_coroutine_threadsafe]);
      the hand-off is parked in [in_flight] and run by [deliver_completion];
    - [await ytdlp_extract(query)] in [play]: [play_begin] runs up to it and
      [play_resolved] runs from it, the resolver's answer being an input.
    The awaits on the chat transport ([defer], [followup.send]) and the other
    awaits on the voice gateway ([connect], [move_to], [disconnect] in [leave])
    stay inside the step they belong to. *)

From stdpp Require Import gmap strings list fin_maps pretty.
From Stdlib Require Import ZArith.

Set Warnings "-register-all".

(** ** Python values and exceptions *)

(** The resolver (yt-dlp) returns an untyped dictionary; the fields of a
    [Track] are copied from it without any check, so they are Python values. *)
Inductive pyval :=
| PyNone
| PyInt (n : Z)
| PyStr (s : string)
| PyList (l : list pyval)
| PyDict (d : gmap string pyval).

Inductive pyexc :=
| IndexError
| KeyError
| TypeError
| AttributeError
| ClientException
| RecursionError.

Inductive result (A : Type) :=
| Ok (a : A)
| Raise (e : pyexc).
Arguments Ok {A} a.
Arguments Raise {A} e.

(** Python truth value, as used by [if not track.stream_url] and
    [if track.duration]. *)
Definition truthy (v : pyval) : bool :=
  match v with
  | PyNone => false
  | PyInt n => negb (n =? 0)%Z
  | PyStr s => negb (String.eqb s "")
  | PyList l => negb (Nat.eqb (length l) 0)
  | PyDict d => negb (Nat.eqb (size d) 0)
  end.

(** [d.get(key, default)] *)
Definition dict_get (d : gmap string pyval) (key : string) (dflt : pyval) : pyval :=
  default dflt (d !! key).

(** [f"{n:02d}"]: at least two characters, padded with zeros, the sign counted
    in the width. *)
Definition fmt_02d (n : Z) : string :=
  if bool_decide (0 ≤ n < 10)%Z then "0" +:+ pretty n else pretty n.

(** [minutes, seconds = divmod(d, 60); f"{minutes:02d}:{seconds:02d}"];
    [divmod] rounds towards minus infinity, as [Z.div] and [Z.modulo] do. *)
Definition fmt_duration (d : Z) : string :=
  fmt_02d (d `div` 60) +:+ ":" +:+ fmt_02d (d `mod` 60).

(** ** Data models *)

Record Track := mkTrack {
  title : pyval;
  stream_url : pyval;
  webpage_url : pyval;
  duration : pyval;        (* Optional[int], in seconds *)
  requester_id : Z
}.

(** [voice_client] holds a reference to a [discord.VoiceClient] object: a handle
    into the heap [voice_clients] of the world. *)
Record GuildMusicState := mkState {
  queue : list Track;
  now_playing : option Track;
  voice_client : option nat
}.

(** [GuildMusicState.__init__] *)
Definition GuildMusicState_init : GuildMusicState :=
  {| queue := []; now_playing := None; voice_client := None |}.

(** ** The voice client (discord.py, external)

    What the bot uses of [discord.VoiceClient]: whether it is connected, the
    channel it is bound to, and its audio player.  The player holds the source
    it renders and the [after] callback, which here is always [after_playback]
    of some guild. *)
Inductive Player :=
| NoPlayer
| Playing (source : Track) (after_guild : Z)
| Paused (source : Track) (after_guild : Z).

Record VoiceClient := mkVC {
  connected : bool;
  channel : nat;
  player : Player
}.

Definition is_connected (vc : VoiceClient) : bool := connected vc.

Definition is_playing (vc : VoiceClient) : bool :=
  match player vc with Playing _ _ => true | _ => false end.

Definition is_paused (vc : VoiceClient) : bool :=
  match player vc with Paused _ _ => true | _ => false end.

(** ** What the bot sends and prints *)

Inductive Msg :=
| MsgNeedVoiceChannel                (* "Você precisa estar em um canal de voz primeiro." *)
| MsgNotInVoice                      (* "Eu não estou em nenhum canal de voz." *)
| MsgJoined (chan : nat)
| MsgMoved (chan : nat)
| MsgLeft
| MsgNotFound                        (* "Não consegui encontrar ou tocar essa música. ..." *)
| MsgNoStream                        (* "Não foi possível obter o stream de áudio dessa faixa." *)
| MsgPlayingNow (title : pyval)
| MsgQueued (title : pyval)
| MsgNothingPlaying
| MsgSkipped
| MsgNothingToPause
| MsgPausedOk
| MsgNotPaused
| MsgResumed
| MsgStopped
| MsgNoCurrentTrack
| MsgTrackInfo (title : pyval) (duration_str : string) (link : option pyval)
| MsgQueueEmpty
| MsgQueueLines (lines : list (string * pyval * string)).

Inductive Event :=
| EvDefer (ephemeral : bool)
| EvSend (m : Msg) (ephemeral : bool)
| EvPrintPlaybackError (title : pyval)     (* "[Playback] Error while playing track ..." *)
| EvPrintFFmpegFailed (title : pyval)      (* "[FFmpeg] Failed to create audio source ..." *)
| EvPrintNowPlaying (guild : Z) (title : pyval)
| EvPrintSchedulingError                   (* "[Playback] Error scheduling next track: ..." *)
| EvUncaught (e : pyexc).                  (* an exception leaves the command handler *)

(** ** The world

    [music_states] is the module-level dict; [voice_clients] is the heap of
    [VoiceClient] objects; [in_flight]
    holds the [after_playback] callbacks whose [start_playback(guild)] was
    handed to the loop and has not run yet; [timers] holds the
    [start_playback] coroutines asleep in [asyncio.sleep(5)], each with its
    guild, the [vc] it captured before sleeping and the time, in seconds, at
    which its sleep ends; [closing] holds the guilds of the [start_playback]
    coroutines suspended in [await vc.disconnect()]; [clock] is the time of
    the event loop, in seconds. *)
Record World := mkWorld {
  music_states : gmap Z GuildMusicState;
  voice_clients : gmap nat VoiceClient;
  in_flight : list Z;
  timers : list (Z * nat * nat);
  closing : list Z;
  clock : nat;
  log : list Event
}.

Definition empty_world : World :=
  {| music_states := ∅; voice_clients := ∅;
     in_flight := []; timers := []; closing := []; clock := 0; log := [] |}.

Definition set_music_states (m : gmap Z GuildMusicState) (w : World) : World :=
  {| music_states := m; voice_clients := voice_clients w;
     in_flight := in_flight w;
     timers := timers w; closing := closing w; clock := clock w; log := log w |}.

Definition set_voice_clients (m : gmap nat VoiceClient) (w : World) : World :=
  {| music_states := music_states w; voice_clients := m;
     in_flight := in_flight w;
     timers := timers w; closing := closing w; clock := clock w; log := log w |}.

Definition set_in_flight (l : list Z) (w : World) : World :=
  {| music_states := music_states w; voice_clients := voice_clients w;
     in_flight := l;
     timers := timers w; closing := closing w; clock := clock w; log := log w |}.

Definition set_timers (l : list (Z * nat * nat)) (w : World) : World :=
  {| music_states := music_states w; voice_clients := voice_clients w;
     in_flight := in_flight w;
     timers := l; closing := closing w; clock := clock w; log := log w |}.

Definition set_closing (l : list Z) (w : World) : World :=
  {| music_states := music_states w; voice_clients := voice_clients w;
     in_flight := in_flight w;
     timers := timers w; closing := l; clock := clock w; log := log w |}.

Definition set_clock (t : nat) (w : World) : World :=
  {| music_states := music_states w; voice_clients := voice_clients w;
     in_flight := in_flight w;
     timers := timers w; closing := closing w; clock := t; log := log w |}.

Definition emit (e : Event) (w : World) : World :=
  {| music_states := music_states w; voice_clients := voice_clients w;
     in_flight := in_flight w;
     timers := timers w; closing := closing w; clock := clock w;
     log := log w ++ [e] |}.

(** *** The registry *)

(** [get_music_state]: the entry is created on first access and never
    replaced afterwards, so a guild id names one state object. *)
Definition get_music_state (guild_id : Z) (w : World) : World :=
  match music_states w !! guild_id with
  | Some _ => w
  | None => set_music_states (<[guild_id := GuildMusicState_init]> (music_states w)) w
  end.

(** Reading through the reference [state] returned by [get_music_state]. *)
Definition state_of (guild_id : Z) (w : World) : GuildMusicState :=
  default GuildMusicState_init (music_states w !! guild_id).

(** Writing through the reference [state]. *)
Definition update_state (guild_id : Z) (f : GuildMusicState → GuildMusicState)
    (w : World) : World :=
  set_music_states (<[guild_id := f (state_of guild_id w)]> (music_states w)) w.

Definition with_queue (q : list Track) (s : GuildMusicState) : GuildMusicState :=
  {| queue := q; now_playing := now_playing s; voice_client := voice_client s |}.

Definition with_now_playing (t : option Track) (s : GuildMusicState) : GuildMusicState :=
  {| queue := queue s; now_playing := t; voice_client := voice_client s |}.

Definition with_voice_client (h : option nat) (s : GuildMusicState) : GuildMusicState :=
  {| queue := queue s; now_playing := now_playing s; voice_client := h |}.

(** *** Voice client objects on the heap *)

(** A handle that was never allocated reads as a dead client; the bot only
    holds handles returned by [vc_connect]. *)
Definition dead_vc : VoiceClient :=
  {| connected := false; channel := 0; player := NoPlayer |}.

Definition vc_at (h : nat) (w : World) : VoiceClient :=
  default dead_vc (voice_clients w !! h).

Definition update_vc (h : nat) (f : VoiceClient → VoiceClient) (w : World) : World :=
  set_voice_clients (<[h := f (vc_at h w)]> (voice_clients w)) w.

Definition with_player (p : Player) (vc : VoiceClient) : VoiceClient :=
  {| connected := connected vc; channel := channel vc; player := p |}.

Definition with_channel (c : nat) (vc : VoiceClient) : VoiceClient :=
  {| connected := connected vc; channel := c; player := player vc |}.

Definition with_connected (b : bool) (vc : VoiceClient) : VoiceClient :=
  {| connected := b; channel := channel vc; player := player vc |}.

(** [vc is None or not vc.is_connected()] is false exactly for a live handle. *)
Definition live (vc : option nat) (w : World) : option nat :=
  match vc with
  | None => None
  | Some h => if is_connected (vc_at h w) then Some h else None
  end.

(** [await channel.connect()]: a new object, connected and bound to [chan];
    its handle differs from every handle in use. *)
Definition vc_connect (chan : nat) (w : World) : nat * World :=
  let h := fresh (dom (voice_clients w)) in
  (h, set_voice_clients
        (<[h := {| connected := true; channel := chan; player := NoPlayer |}]>
           (voice_clients w)) w).

(** [await vc.move_to(chan)]: rebinds the client; the player is untouched. *)
Definition vc_move_to (h : nat) (chan : nat) (w : World) : World :=
  update_vc h (with_channel chan) w.

(** The player ends (by itself or halted): the player thread runs [after],
    which hands [start_playback(guild)] to the event loop. *)
Definition end_player (h : nat) (w : World) : World :=
  match player (vc_at h w) with
  | NoPlayer => w
  | Playing _ g | Paused _ g =>
      set_in_flight (in_flight w ++ [g]) (update_vc h (with_player NoPlayer) w)
  end.

(** [vc.stop()]: halts the player, if any. *)
Definition vc_stop (h : nat) (w : World) : World := end_player h w.

(** [vc.pause()] and [vc.resume()] *)
Definition vc_pause (h : nat) (w : World) : World :=
  match player (vc_at h w) with
  | Playing s g => update_vc h (with_player (Paused s g)) w
  | _ => w
  end.

Definition vc_resume (h : nat) (w : World) : World :=
  match player (vc_at h w) with
  | Paused s g => update_vc h (with_player (Playing s g)) w
  | _ => w
  end.

(** [await vc.disconnect()]: stops the player and drops the connection. *)
Definition vc_disconnect (h : nat) (w : World) : World :=
  update_vc h (with_connected false) (vc_stop h w).

(** [vc.play(source, after=after_playback)]: refused with [ClientException]
    when the client is not connected or is already playing. *)
Definition vc_play (h : nat) (source : Track) (guild : Z) (w : World) : result World :=
  if negb (is_connected (vc_at h w)) then Raise ClientException
  else if is_playing (vc_at h w) then Raise ClientException
  else Ok (update_vc h (with_player (Playing source guild)) w).

(** ** The resolver boundary *)

(** [info["entries"][0]] for each shape of [info["entries"]], followed by the
    [.get] calls made on the result, which only a dict supports. *)
Definition first_entry (entries : pyval) : result (gmap string pyval) :=
  match entries with
  | PyList [] => Raise IndexError
  | PyList (PyDict d :: _) => Ok d
  | PyList (_ :: _) => Raise AttributeError
  | PyStr s => if String.eqb s "" then Raise IndexError else Raise AttributeError
  | PyDict d => Raise KeyError
  | PyNone | PyInt _ => Raise TypeError
  end.

(** Lines 106-117: the fields are read with [.get] and stored as they are. *)
Definition track_of_dict (info : gmap string pyval) (requester_id : Z) : Track :=
  {| title := dict_get info "title" (PyStr "Untitled");
     stream_url := dict_get info "url" PyNone;
     webpage_url := dict_get info "webpage_url" (dict_get info "original_url" (PyStr ""));
     duration := dict_get info "duration" PyNone;
     requester_id := requester_id |}.

(** Lines 101-117; a search result is replaced by its first entry. *)
Definition build_track_from_info (info : gmap string pyval) (requester_id : Z)
    : result Track :=
  match info !! "entries" with
  | Some entries =>
      match first_entry entries with
      | Ok info' => Ok (track_of_dict info' requester_id)
      | Raise e => Raise e
      end
  | None => Ok (track_of_dict info requester_id)
  end.

(** ** Reporting a duration *)

(** [now_playing], lines 429-432. *)
Definition now_playing_duration_str (track : Track) : result string :=
  match duration track with
  | PyNone => Ok "desconhecida"
  | PyInt d => Ok (fmt_duration d)
  | _ => Raise TypeError
  end.

(** [queue_cmd], lines 455-459. *)
Definition queue_dur (track : Track) : result string :=
  if truthy (duration track) then
    match duration track with
    | PyInt d => Ok (fmt_duration d)
    | _ => Raise TypeError
    end
  else Ok "??:??".

Fixpoint queue_lines (idx : Z) (tracks : list Track)
    : result (list (string * pyval * string)) :=
  match tracks with
  | [] => Ok []
  | track :: rest =>
      match queue_dur track with
      | Raise e => Raise e
      | Ok dur =>
          match queue_lines (idx + 1) rest with
          | Raise e => Raise e
          | Ok lines => Ok ((fmt_02d idx, title track, dur) :: lines)
          end
      end
  end.

(** [not state.queue] *)
Definition queue_is_empty (q : list Track) : bool :=
  match q with [] => true | _ => false end.

Section Bot.

(** Whether [discord.FFmpegOpusAudio(track.stream_url, ...)] returns a source
    ([true]) or raises ([false]); decided by the encoder, outside the bot. *)
Variable ffmpeg_accepts : pyval → bool.

(** How many times [start_playback] can await itself (line 206) before the
    interpreter refuses one more frame with [RecursionError]: the encoder
    raises without suspending, so every retry of the [except] branch stands
    on the stack of the one before.  The number is what the interpreter's
    recursion limit (1000 unless changed) leaves above the frames of the
    caller, which is taken to be the same for [play] and for the callback of
    the player; it is at least one. *)
Variable recursion_limit : positive.

(** ** Voice / playback helpers *)

Definition ensure_voice (guild : Z) (user_channel : option nat) (w : World)
    : option nat * World :=
  match user_channel with
  | None => (None, emit (EvSend MsgNeedVoiceChannel true) w)
  | Some target_channel =>
      let w := get_music_state guild w in
      match live (voice_client (state_of guild w)) w with
      | None =>
          let '(vc, w) := vc_connect target_channel w in
          (Some vc, update_state guild (with_voice_client (Some vc)) w)
      | Some vc =>
          if negb (Nat.eqb (channel (vc_at vc w)) target_channel)
          then (Some vc, vc_move_to vc target_channel w)
          else (Some vc, w)
      end
  end.

(** One activation of [start_playback]: it returns, raises, or reaches the
    recursive [await start_playback(guild)] of the [except] branch. *)
Inductive Activation :=
| Returned (w : World)
| Raised (e : pyexc) (w : World)
| Again (w : World).

Definition start_playback_body (guild : Z) (w : World) : Activation :=
  let w := get_music_state guild w in
  match live (voice_client (state_of guild w)) w with
  | None =>
      let w := update_state guild (with_now_playing None) w in
      Returned (update_state guild (with_queue []) w)
  | Some vc =>
      match queue (state_of guild w) with
      | [] =>
          let w := update_state guild (with_now_playing None) w in
          (* await asyncio.sleep(5): resumed by [grace_elapsed] *)
          Returned (set_timers (timers w ++ [(guild, vc, clock w + 5)]) w)
      | track :: rest =>
          let w := update_state guild (with_queue rest) w in
          let w := update_state guild (with_now_playing (Some track)) w in
          if ffmpeg_accepts (stream_url track) then
            match vc_play vc track guild w with
            | Ok w => Returned (emit (EvPrintNowPlaying guild (title track)) w)
            | Raise e => Raised e w
            end
          else Again (emit (EvPrintFFmpegFailed (title track)) w)
      end
  end.

(** [start_playback] with room for [depth] nested retries: the result is the
    world when the coroutine returns, suspends in its sleep or raises, with
    the exception that left it, if any.  A retry that does not fit raises
    [RecursionError] inside the [except] branch, which nothing catches before
    the caller. *)
Fixpoint start_playback_nested (depth : nat) (guild : Z) (w : World)
    : World * option pyexc :=
  match start_playback_body guild w with
  | Returned w' => (w', None)
  | Raised e w' => (w', Some e)
  | Again w' =>
      match depth with
      | 0 => (w', Some RecursionError)
      | S depth => start_playback_nested depth guild w'
      end
  end.

Definition start_playback (guild : Z) (w : World) : World * option pyexc :=
  start_playback_nested (Pos.to_nat recursion_limit) guild w.

(** [start_playback] from the end of [await asyncio.sleep(5)] to
    [await vc.disconnect()], lines 177-178; [vc] is the client captured
    before the sleep.  The two tests and the call of [disconnect] run without
    an [await] between them; [disconnect] halts the player and marks the
    client disconnected before it first suspends.  The result says whether
    the coroutine is now suspended in the disconnect. *)
Definition idle_recheck_begin (guild : Z) (vc : nat) (w : World) : bool * World :=
  if negb (is_playing (vc_at vc w)) && queue_is_empty (queue (state_of guild w))
  then (true, vc_disconnect vc w)
  else (false, w).

(** Line 179, once the disconnect has completed. *)
Definition idle_recheck_end (guild : Z) (w : World) : World :=
  update_state guild (with_voice_client None) w.

(** Lines 177-180 when nothing else runs while the disconnect completes. *)
Definition idle_recheck (guild : Z) (vc : nat) (w : World) : World :=
  match idle_recheck_begin guild vc w with
  | (true, w) => idle_recheck_end guild w
  | (false, w) => w
  end.

(** The loop looks at the oldest sleeping [start_playback]: once its five
    seconds are over it wakes up and runs to its next suspension point. *)
Definition grace_elapsed (w : World) : World :=
  match timers w with
  | [] => w
  | (guild, vc, due) :: rest =>
      if due <=? clock w then
        match idle_recheck_begin guild vc (set_timers rest w) with
        | (true, w) => set_closing (closing w ++ [guild]) w
        | (false, w) => w
        end
      else w
  end.

(** The oldest pending [await vc.disconnect()] completes and its
    [start_playback] runs to the end. *)
Definition disconnect_completed (w : World) : World :=
  match closing w with
  | [] => w
  | guild :: rest => idle_recheck_end guild (set_closing rest w)
  end.

(** Time passes on the clock of the loop. *)
Definition elapse (seconds : nat) (w : World) : World :=
  set_clock (clock w + seconds) w.

(** The loop runs the oldest [start_playback(guild)] handed over by an
    [after_playback]; an exception is caught around [fut.result()]. *)
Definition deliver_completion (w : World) : World :=
  match in_flight w with
  | [] => w
  | guild :: rest =>
      match start_playback guild (set_in_flight rest w) with
      | (w, None) => w
      | (w, Some _) => emit EvPrintSchedulingError w
      end
  end.

(** The player of client [vc] reaches the end of its source, with or without
    an error: [after_playback(error)] runs. *)
Definition track_ended (vc : nat) (error : bool) (w : World) : World :=
  match player (vc_at vc w) with
  | Playing source _ =>
      end_player vc
        (if error then emit (EvPrintPlaybackError (title source)) w else w)
  | _ => w
  end.

(** ** Slash commands

    [guild] is [interaction.guild], absent outside a guild; [user_channel] is
    the voice channel of the caller ([interaction.user.voice.channel]),
    absent when [voice] or its [channel] is [None]. *)

Definition join (guild : option Z) (user_channel : option nat) (w : World) : World :=
  let w := emit (EvDefer true) w in
  match guild with
  | None => w
  | Some guild =>
      let w := get_music_state guild w in
      match user_channel with
      | None => emit (EvSend MsgNeedVoiceChannel true) w
      | Some chan =>
          match live (voice_client (state_of guild w)) w with
          | None =>
              let '(vc, w) := vc_connect chan w in
              let w := update_state guild (with_voice_client (Some vc)) w in
              emit (EvSend (MsgJoined chan) true) w
          | Some vc =>
              emit (EvSend (MsgMoved chan) true) (vc_move_to vc chan w)
          end
      end
  end.

Definition leave (guild : option Z) (w : World) : World :=
  let w := emit (EvDefer true) w in
  match guild with
  | None => w
  | Some guild =>
      let w := get_music_state guild w in
      match live (voice_client (state_of guild w)) w with
      | None => emit (EvSend MsgNotInVoice true) w
      | Some vc =>
          let w := update_state guild (with_queue []) w in
          let w := update_state guild (with_now_playing None) w in
          let w := vc_disconnect vc w in
          let w := update_state guild (with_voice_client None) w in
          emit (EvSend MsgLeft true) w
      end
  end.

(** [play] up to [await ytdlp_extract(query)], lines 281-297: the result
    names the guild and the client the rest of the command will use, when the
    command goes on. *)
Definition play_begin (guild : option Z) (user_channel : option nat) (w : World)
    : option (Z * nat) * World :=
  let w := emit (EvDefer false) w in
  match guild with
  | None => (None, w)
  | Some guild =>
      let w := get_music_state guild w in
      match ensure_voice guild user_channel w with
      | (None, w) => (None, w)
      | (Some vc, w) => (Some (guild, vc), w)
      end
  end.

(** [play] from the resolver's answer on, lines 298-321; [info] is what
    [ytdlp_extract] returned. *)
Definition play_resolved (guild : Z) (vc : nat) (requester : Z)
    (info : option (gmap string pyval)) (w : World) : World :=
  match info with
  | None => emit (EvSend MsgNotFound true) w
  | Some info =>
      match build_track_from_info info requester with
      | Raise e => emit (EvUncaught e) w
      | Ok track =>
          if negb (truthy (stream_url track)) then emit (EvSend MsgNoStream true) w
          else
            let w := update_state guild (with_queue (queue (state_of guild w) ++ [track])) w in
            if negb (is_playing (vc_at vc w)) && negb (is_paused (vc_at vc w)) then
              let w := emit (EvSend (MsgPlayingNow (title track)) false) w in
              match start_playback guild w with
              | (w, None) => w
              | (w, Some e) => emit (EvUncaught e) w
              end
            else emit (EvSend (MsgQueued (title track)) false) w
      end
  end.

(** [play] when nothing else runs while the resolver works. *)
Definition play (guild : option Z) (user_channel : option nat) (requester : Z)
    (info : option (gmap string pyval)) (w : World) : World :=
  match play_begin guild user_channel w with
  | (None, w) => w
  | (Some (guild, vc), w) => play_resolved guild vc requester info w
  end.

Definition skip (guild : option Z) (w : World) : World :=
  let w := emit (EvDefer true) w in
  match guild with
  | None => w
  | Some guild =>
      let w := get_music_state guild w in
      match live (voice_client (state_of guild w)) w with
      | None => emit (EvSend MsgNotInVoice true) w
      | Some vc =>
          if negb (is_playing (vc_at vc w)) && negb (is_paused (vc_at vc w))
          then emit (EvSend MsgNothingPlaying true) w
          else emit (EvSend MsgSkipped true) (vc_stop vc w)
      end
  end.

Definition pause (guild : option Z) (w : World) : World :=
  let w := emit (EvDefer true) w in
  match guild with
  | None => w
  | Some guild =>
      let w := get_music_state guild w in
      match live (voice_client (state_of guild w)) w with
      | None => emit (EvSend MsgNotInVoice true) w
      | Some vc =>
          if negb (is_playing (vc_at vc w))
          then emit (EvSend MsgNothingToPause true) w
          else emit (EvSend MsgPausedOk true) (vc_pause vc w)
      end
  end.

Definition resume (guild : option Z) (w : World) : World :=
  let w := emit (EvDefer true) w in
  match guild with
  | None => w
  | Some guild =>
      let w := get_music_state guild w in
      match live (voice_client (state_of guild w)) w with
      | None => emit (EvSend MsgNotInVoice true) w
      | Some vc =>
          if negb (is_paused (vc_at vc w))
          then emit (EvSend MsgNotPaused true) w
          else emit (EvSend MsgResumed true) (vc_resume vc w)
      end
  end.

(** The two assignments of [stop], lines 407-408. *)
Definition stop_clear (guild : Z) (w : World) : World :=
  let w := update_state guild (with_queue []) w in
  update_state guild (with_now_playing None) w.

(** The halt request of [stop], lines 409-410. *)
Definition stop_halt (vc : nat) (w : World) : World :=
  if is_playing (vc_at vc w) || is_paused (vc_at vc w) then vc_stop vc w else w.

Definition stop (guild : option Z) (w : World) : World :=
  let w := emit (EvDefer true) w in
  match guild with
  | None => w
  | Some guild =>
      let w := get_music_state guild w in
      match live (voice_client (state_of guild w)) w with
      | None => emit (EvSend MsgNotInVoice true) w
      | Some vc =>
          let w := stop_clear guild w in
          let w := stop_halt vc w in
          emit (EvSend MsgStopped true) w
      end
  end.

(** The command [nowplaying] (the function [now_playing] of the source; the
    name is taken by the field of [GuildMusicState]). *)
Definition now_playing_cmd (guild : option Z) (w : World) : World :=
  let w := emit (EvDefer true) w in
  match guild with
  | None => w
  | Some guild =>
      let w := get_music_state guild w in
      match now_playing (state_of guild w) with
      | None => emit (EvSend MsgNoCurrentTrack true) w
      | Some track =>
          match now_playing_duration_str track with
          | Raise e => emit (EvUncaught e) w
          | Ok duration_str =>
              let link := if truthy (webpage_url track)
                          then Some (webpage_url track) else None in
              emit (EvSend (MsgTrackInfo (title track) duration_str link) true) w
          end
      end
  end.

Definition queue_cmd (guild : option Z) (w : World) : World :=
  let w := emit (EvDefer true) w in
  match guild with
  | None => w
  | Some guild =>
      let w := get_music_state guild w in
      if queue_is_empty (queue (state_of guild w))
      then emit (EvSend MsgQueueEmpty true) w
      else
        match queue_lines 1 (take 10 (queue (state_of guild w))) with
        | Raise e => emit (EvUncaught e) w
        | Ok lines => emit (EvSend (MsgQueueLines lines) true) w
        end
  end.

(** ** The bot as a reactive system *)

Inductive Input :=
| Join (guild : option Z) (user_channel : option nat)
| Leave (guild : option Z)
| Play (guild : option Z) (user_channel : option nat) (requester : Z)
       (info : option (gmap string pyval))
| Skip (guild : option Z)
| Pause (guild : option Z)
| Resume (guild : option Z)
| Stop (guild : option Z)
| NowPlaying (guild : option Z)
| Queue (guild : option Z)
| TrackEnded (vc : nat) (error : bool)
| Completion
| Elapse (seconds : nat)
| GraceElapsed
| Disconnected.

Definition step (w : World) (i : Input) : World :=
  match i with
  | Join g c => join g c w
  | Leave g => leave g w
  | Play g c r info => play g c r info w
  | Skip g => skip g w
  | Pause g => pause g w
  | Resume g => resume g w
  | Stop g => stop g w
  | NowPlaying g => now_playing_cmd g w
  | Queue g => queue_cmd g w
  | TrackEnded vc err => track_ended vc err w
  | Completion => deliver_completion w
  | Elapse seconds => elapse seconds w
  | GraceElapsed => grace_elapsed w
  | Disconnected => disconnect_completed w
  end.

Definition run (w : World) (inputs : list Input) : World :=
  foldl step w inputs.

(** ** Vocabulary of the properties *)

(** The encoder refuses the track's stream URL. *)
Definition rejected (track : Track) : Prop :=
  ffmpeg_accepts (stream_url track) = false.

(** The world in which [start_playback] calls itself after the encoder has
    refused the head [track] of the queue [track :: rest]. *)
Definition discarded (guild : Z) (track : Track) (rest : list Track) (w : World)
    : World :=
  emit (EvPrintFFmpegFailed (title track))
    (update_state guild (with_now_playing (Some track))
       (update_state guild (with_queue rest) w)).

(** The prints of the discarded tracks, in order. *)
Definition failure_prints (failing : list Track) : list Event :=
  map (λ t, EvPrintFFmpegFailed (title t)) failing.

(** The client has a player for [source], playing or paused, whose callback
    belongs to [guild]. *)
Definition active_for (guild : Z) (source : Track) (vc : VoiceClient) : Prop :=
  player vc = Playing source guild ∨ player vc = Paused source guild.

(** A [play] request: the caller's voice channel, the caller's id and what
    the resolver returns for the query. *)
Definition play_input (guild : Z) (r : nat * Z * gmap string pyval) : Input :=
  Play (Some guild) (Some r.1.1) r.1.2 (Some r.2).

(** The request resolves to [track], with a usable stream URL. *)
Definition resolves_to (r : nat * Z * gmap string pyval) (track : Track) : Prop :=
  build_track_from_info r.2 r.1.2 = Ok track ∧ truthy (stream_url track) = true.





(** Every guild that has a state in [w] still has one in [w']. *)
Definition grows (w w' : World) : Prop :=
  dom (music_states w) ⊆ dom (music_states w').

(** The world an activation of [start_playback] ends in. *)
Definition activation_world (a : Activation) : World :=
  match a with Returned w | Raised _ w | Again w => w end.

(** ** Sample data *)

Definition accept_all : pyval → bool := λ _, true.

(** Room for 987 nested retries, as under the default recursion limit. *)
Definition default_depth : positive := 987.

(** An encoder that refuses the stream URL ["bad"]. *)
Definition refuse_bad : pyval → bool :=
  λ u, match u with PyStr s => negb (String.eqb s "bad") | _ => true end.

Definition info_of (name url : string) : gmap string pyval :=
  <["title" := PyStr name]> (<["url" := PyStr url]> ∅).

Definition track_of (name url : string) : Track :=
  {| title := PyStr name; stream_url := PyStr url; webpage_url := PyStr "";
     duration := PyNone; requester_id := 42 |}.

Definition song_a : Track := track_of "song-a" "stream-a".
Definition song_b : Track := track_of "song-b" "stream-b".
Definition song_c : Track := track_of "song-c" "stream-c".
Definition broken_1 : Track := track_of "broken-1" "bad".
Definition broken_2 : Track := track_of "broken-2" "bad".

Definition silent_track : Track :=
  {| title := PyStr "silence"; stream_url := PyStr "stream-s";
     webpage_url := PyStr ""; duration := PyInt 0; requester_id := 42 |}.

(** A track of three minutes and thirty-five seconds. *)
Definition timed_track : Track :=
  {| title := PyStr "timed"; stream_url := PyStr "stream-t";
     webpage_url := PyStr ""; duration := PyInt 215; requester_id := 42 |}.

(** A search result without entries. *)
Definition empty_search : gmap string pyval := <["entries" := PyList []]> ∅.

(** A result without a stream URL. *)
Definition no_url_info : gmap string pyval := <["title" := PyStr "song-x"]> ∅.

(** Guild 1 has client 0, connected to channel 7, with the given player,
    queue and current track. *)
Definition sample_world (p : Player) (q : list Track) (current : option Track)
    : World :=
  {| music_states :=
       {[ 1%Z := {| queue := q; now_playing := current; voice_client := Some 0 |} ]};
     voice_clients := {[ 0 := {| connected := true; channel := 7; player := p |} ]};
     in_flight := []; timers := []; closing := []; clock := 0; log := [] |}.

(** Guild 1 plays [song_a]. *)
Definition sample_playing : World :=
  sample_world (Playing song_a 1) [] (Some song_a).

(** Guild 1 is connected and idle. *)
Definition sample_idle : World := sample_world NoPlayer [] None.

(** Guild 1 is connected and idle, with two broken tracks at the head of its
    queue. *)
Definition sample_broken_queue : World :=
  sample_world NoPlayer [broken_1; broken_2; song_a; song_b] None.

(** Guild 1 still stores client 0, which lost its connection while [song_a]
    was current and two tracks were queued. *)
Definition sample_disconnected : World :=
  {| music_states :=
       {[ 1%Z := {| queue := [song_b; song_c]; now_playing := Some song_a;
                    voice_client := Some 0 |} ]};
     voice_clients := {[ 0 := {| connected := false; channel := 7; player := NoPlayer |} ]};
     in_flight := []; timers := []; closing := []; clock := 0; log := [] |}.

(** Guild 1 is connected and idle; its queue starts with 988 tracks that
    [refuse_bad] refuses, one more than [default_depth]. *)
Definition sample_long_broken_queue : World :=
  sample_world NoPlayer (replicate 988 broken_1 ++ [song_a; song_b]) None.

(** ** Vocabulary of the further properties *)

(** From [w] to [w'] the bot only wrote [events]: every guild's state, every
    voice client, the pending callbacks, timers and disconnects and the clock
    are as before. *)
Definition answers_only (w w' : World) (events : list Event) : Prop :=
  (∀ g, state_of g w' = state_of g w) ∧
  voice_clients w' = voice_clients w ∧
  in_flight w' = in_flight w ∧
  timers w' = timers w ∧
  closing w' = closing w ∧
  clock w' = clock w ∧
  log w' = log w ++ events.

(** The input is a slash command sent from [guild]. *)
Definition is_command_of (guild : Z) (i : Input) : Prop :=
  match i with
  | Join g _ | Leave g | Play g _ _ _ | Skip g | Pause g | Resume g | Stop g
  | NowPlaying g | Queue g => g = Some guild
  | TrackEnded _ _ | Completion | Elapse _ | GraceElapsed | Disconnected => False
  end.

(** Two worlds that differ at most in what was logged. *)
Definition same_but_log (w w' : World) : Prop :=
  music_states w = music_states w' ∧
  voice_clients w = voice_clients w' ∧
  in_flight w = in_flight w' ∧
  timers w = timers w' ∧
  closing w = closing w' ∧
  clock w = clock w'.

(** The duration is [None] or an integer, as the dataclass announces. *)
Definition typed_duration (track : Track) : Prop :=
  duration track = PyNone ∨ ∃ d, duration track = PyInt d.

(** From [w1] to [w1'] and from [w2] to [w2'] the same events were logged. *)
Definition same_events (w1 w1' w2 w2' : World) : Prop :=
  ∃ events, log w1' = log w1 ++ events ∧ log w2' = log w2 ++ events.

(** [a] and [b] differ at most in their logs, and were reached from [w1] and
    [w2] by logging the same events. *)
Definition in_step (w1 a w2 b : World) : Prop :=
  same_but_log a b ∧ same_events w1 a w2 b.

(** The track passed the check of [play] (line 307): its stream URL is
    truthy. *)
Definition usable (track : Track) : Prop := truthy (stream_url track) = true.

(** Every queued track and the current track of the state are usable. *)
Definition usable_state (s : GuildMusicState) : Prop :=
  Forall usable (queue s) ∧ ∀ t, now_playing s = Some t → usable t.

(** Every guild's state holds usable tracks only. *)
Definition all_usable (w : World) : Prop := ∀ g, usable_state (state_of g w).

(** * Properties *)

(** ** Reading the world after a primitive step *)

Lemma state_of_get_music_state guild g w :
  state_of g (get_music_state guild w) = state_of g w.
Proof.
  unfold get_music_state, state_of.
  destruct (music_states w !! guild) eqn:E; [done|]. simpl.
  destruct (decide (guild = g)) as [->|Hne].
  - by rewrite lookup_insert_eq, E.
  - by rewrite lookup_insert_ne.
Qed.

Lemma state_of_update_state_eq guild f w :
  state_of guild (update_state guild f w) = f (state_of guild w).
Proof. unfold update_state, state_of at 1. simpl. by rewrite lookup_insert_eq. Qed.

Lemma state_of_update_state_ne guild g f w :
  guild ≠ g → state_of g (update_state guild f w) = state_of g w.
Proof. intros. unfold update_state, state_of. simpl. by rewrite lookup_insert_ne. Qed.

Lemma state_of_same_states g w w' :
  music_states w' = music_states w → state_of g w' = state_of g w.
Proof. unfold state_of. by intros ->. Qed.

Lemma vc_at_same_clients h w w' :
  voice_clients w' = voice_clients w → vc_at h w' = vc_at h w.
Proof. unfold vc_at. by intros ->. Qed.

Lemma state_of_emit g e w : state_of g (emit e w) = state_of g w.
Proof. done. Qed.

Lemma state_of_set_timers g l w : state_of g (set_timers l w) = state_of g w.
Proof. done. Qed.

Lemma state_of_set_in_flight g l w : state_of g (set_in_flight l w) = state_of g w.
Proof. done. Qed.

Lemma vc_at_set_timers h l w : vc_at h (set_timers l w) = vc_at h w.
Proof. done. Qed.

Lemma vc_at_set_in_flight h l w : vc_at h (set_in_flight l w) = vc_at h w.
Proof. done. Qed.

Lemma state_of_set_closing g l w : state_of g (set_closing l w) = state_of g w.
Proof. done. Qed.

Lemma vc_at_set_closing h l w : vc_at h (set_closing l w) = vc_at h w.
Proof. done. Qed.

Lemma state_of_elapse g seconds w : state_of g (elapse seconds w) = state_of g w.
Proof. done. Qed.

Lemma vc_at_elapse h seconds w : vc_at h (elapse seconds w) = vc_at h w.
Proof. done. Qed.

Lemma in_flight_set_in_flight l w : in_flight (set_in_flight l w) = l.
Proof. done. Qed.

Lemma in_flight_update_vc h f w : in_flight (update_vc h f w) = in_flight w.
Proof. done. Qed.

Lemma in_flight_emit e w : in_flight (emit e w) = in_flight w.
Proof. done. Qed.

Lemma timers_emit e w : timers (emit e w) = timers w.
Proof. done. Qed.

Lemma vc_at_emit h e w : vc_at h (emit e w) = vc_at h w.
Proof. done. Qed.

Lemma vc_at_update_state h guild f w : vc_at h (update_state guild f w) = vc_at h w.
Proof. done. Qed.

Lemma state_of_update_vc g h f w : state_of g (update_vc h f w) = state_of g w.
Proof. done. Qed.

Lemma music_states_update_vc h f w :
  music_states (update_vc h f w) = music_states w.
Proof. done. Qed.

Lemma music_states_end_player h w :
  music_states (end_player h w) = music_states w.
Proof. unfold end_player. by destruct (player (vc_at h w)). Qed.

Lemma music_states_vc_disconnect h w :
  music_states (vc_disconnect h w) = music_states w.
Proof. unfold vc_disconnect, vc_stop. simpl. apply music_states_end_player. Qed.

Lemma voice_clients_get_music_state guild w :
  voice_clients (get_music_state guild w) = voice_clients w.
Proof. unfold get_music_state. by destruct (music_states w !! guild). Qed.

Lemma in_flight_get_music_state guild w :
  in_flight (get_music_state guild w) = in_flight w.
Proof. unfold get_music_state. by destruct (music_states w !! guild). Qed.

Lemma timers_get_music_state guild w :
  timers (get_music_state guild w) = timers w.
Proof. unfold get_music_state. by destruct (music_states w !! guild). Qed.

Lemma log_get_music_state guild w :
  log (get_music_state guild w) = log w.
Proof. unfold get_music_state. by destruct (music_states w !! guild). Qed.

Lemma vc_at_get_music_state guild h w :
  vc_at h (get_music_state guild w) = vc_at h w.
Proof. apply vc_at_same_clients, voice_clients_get_music_state. Qed.

Lemma live_get_music_state guild vc w :
  live vc (get_music_state guild w) = live vc w.
Proof. destruct vc as [h|]; [|done]. simpl. by rewrite vc_at_get_music_state. Qed.

Lemma vc_at_update_vc_eq h f w : vc_at h (update_vc h f w) = f (vc_at h w).
Proof. unfold update_vc, vc_at at 1. simpl. by rewrite lookup_insert_eq. Qed.

Lemma vc_at_update_vc_ne h h' f w :
  h ≠ h' → vc_at h' (update_vc h f w) = vc_at h' w.
Proof. intros. unfold update_vc, vc_at. simpl. by rewrite lookup_insert_ne. Qed.

(** A live handle is stored in a state of the registry, so the registry
    already has the guild's entry. *)
Lemma live_get_music_state_id guild h w :
  live (voice_client (state_of guild w)) w = Some h → get_music_state guild w = w.
Proof.
  unfold get_music_state, state_of.
  destruct (music_states w !! guild); [done|]. simpl. discriminate.
Qed.

Lemma live_Some vc h w :
  live vc w = Some h ↔ vc = Some h ∧ is_connected (vc_at h w) = true.
Proof.
  destruct vc as [h'|]; simpl.
  - destruct (is_connected (vc_at h' w)) eqn:E; split.
    + by intros [= <-].
    + by intros [[= <-] _].
    + discriminate.
    + intros [[= <-] ?]. congruence.
  - split; [discriminate|]. by intros [? _].
Qed.

Lemma live_None vc w :
  live vc w = None ↔
  vc = None ∨ ∃ h, vc = Some h ∧ is_connected (vc_at h w) = false.
Proof.
  destruct vc as [h'|]; simpl.
  - destruct (is_connected (vc_at h' w)) eqn:E; split.
    + discriminate.
    + intros [|(h & [= <-] & ?)]; [discriminate | congruence].
    + intros _. right. by exists h'.
    + done.
  - split; [by left | done].
Qed.

(** ** [start_playback], one activation at a time *)

Lemma recursion_limit_pos : 1 ≤ Pos.to_nat recursion_limit.
Proof. pose proof (Pos2Nat.is_pos recursion_limit). lia. Qed.

Lemma start_playback_activation guild w :
  start_playback guild w =
  match start_playback_body guild w with
  | Returned w' => (w', None)
  | Raised e w' => (w', Some e)
  | Again w' => start_playback_nested (Nat.pred (Pos.to_nat recursion_limit)) guild w'
  end.
Proof.
  unfold start_playback. pose proof recursion_limit_pos.
  destruct (Pos.to_nat recursion_limit) as [|depth]; [lia|]. done.
Qed.

(** What holds before an activation and is kept by each activation holds
    when [start_playback] is left, at any depth. *)
Lemma start_playback_nested_keeps (P : World → World → Prop) guild :
  (∀ w, P w w) →
  (∀ w a b, P w a → P a b → P w b) →
  (∀ w, P w (activation_world (start_playback_body guild w))) →
  ∀ depth w, P w (start_playback_nested depth guild w).1.
Proof.
  intros Hrefl Htrans Hbody depth.
  induction depth as [|depth IH]; intros w; simpl;
    pose proof (Hbody w) as Hb;
    destruct (start_playback_body guild w) as [a|e a|a]; simpl in *; try done.
  by apply (Htrans w a).
Qed.

(** ** The resolver boundary *)

(** C9: when the resolver's answer has an ["entries"] field holding an empty
    list, [build_track_from_info] indexes its first entry and raises
    [IndexError]; in [play] the exception leaves the command, no resolution
    failure is reported to the requester, and nothing else changes. *)
Theorem empty_entries_raise_index_error info requester :
  info !! "entries" = Some (PyList []) →
  build_track_from_info info requester = Raise IndexError ∧
  ∀ guild vc w,
    play_resolved guild vc requester (Some info) w = emit (EvUncaught IndexError) w.
Proof.
  intros Hentries.
  assert (Hbuild : build_track_from_info info requester = Raise IndexError).
  { unfold build_track_from_info. by rewrite Hentries. }
  split; [done|]. intros guild vc w. unfold play_resolved. by rewrite Hbuild.
Qed.

(** ** Reported durations *)

(** C10: for a track whose duration is 0, [nowplaying] reports ["00:00"]
    (it tests [is not None]) and [queue] reports ["??:??"] (it tests the truth
    value), both as computed strings and in the messages the two commands
    send. *)
Theorem zero_duration_reports_disagree track :
  duration track = PyInt 0 →
  now_playing_duration_str track = Ok "00:00" ∧
  queue_dur track = Ok "??:??" ∧
  (∀ guild w,
     now_playing (state_of guild w) = Some track →
     ∃ link,
       log (now_playing_cmd (Some guild) w) =
       log w ++ [EvDefer true; EvSend (MsgTrackInfo (title track) "00:00" link) true]) ∧
  (∀ guild w,
     queue (state_of guild w) = [track] →
     log (queue_cmd (Some guild) w) =
     log w ++ [EvDefer true; EvSend (MsgQueueLines [("01", title track, "??:??")]) true]).
Proof.
  intros Hd.
  assert (Hnow : now_playing_duration_str track = Ok "00:00").
  { unfold now_playing_duration_str. by rewrite Hd. }
  assert (Hq : queue_dur track = Ok "??:??").
  { unfold queue_dur. by rewrite Hd. }
  repeat split; [done | done | |].
  - intros guild w Hnp. unfold now_playing_cmd.
    rewrite state_of_get_music_state, state_of_emit.
    rewrite Hnp, Hnow. eexists. simpl.
    rewrite log_get_music_state. simpl. by rewrite <- app_assoc.
  - intros guild w Hqueue. unfold queue_cmd.
    rewrite state_of_get_music_state, state_of_emit.
    rewrite Hqueue. simpl. rewrite Hq. simpl.
    rewrite log_get_music_state. simpl. by rewrite <- app_assoc.
Qed.

(** ** Advancing without a voice session *)

(** C4: when [start_playback] runs while the stored voice client is absent or
    not connected, it returns with [now_playing = None] and an empty queue;
    no voice client is touched (the engine is not started), no idle timer is
    set, nothing is sent or printed, and the stored handle is left as it was. *)
Theorem start_playback_without_session guild w :
  (voice_client (state_of guild w) = None ∨
   ∃ h, voice_client (state_of guild w) = Some h ∧ is_connected (vc_at h w) = false) →
  ∃ w',
    start_playback guild w = (w', None) ∧
    now_playing (state_of guild w') = None ∧
    queue (state_of guild w') = [] ∧
    voice_client (state_of guild w') = voice_client (state_of guild w) ∧
    voice_clients w' = voice_clients w ∧
    in_flight w' = in_flight w ∧
    timers w' = timers w ∧
    log w' = log w.
Proof.
  intros Hvc. apply live_None in Hvc.
  rewrite start_playback_activation. unfold start_playback_body.
  rewrite state_of_get_music_state, live_get_music_state, Hvc.
  eexists. split; [reflexivity|].
  rewrite !state_of_update_state_eq, state_of_get_music_state. simpl.
  repeat split.
  - apply voice_clients_get_music_state.
  - apply in_flight_get_music_state.
  - apply timers_get_music_state.
  - apply log_get_music_state.
Qed.

(** ** Ensuring a voice session *)

Lemma vc_connect_fresh chan w :
  voice_clients w !! (vc_connect chan w).1 = None.
Proof.
  unfold vc_connect. simpl. apply not_elem_of_dom, is_fresh.
Qed.

(** C8: [ensure_voice] returns no client exactly when the requester is in no
    voice channel; with a live session bound to another channel it moves that
    same client to the requester's channel, leaving every queue, every current
    track and the player as they were; with a live session already bound to
    the requester's channel it returns that client and changes nothing. *)
Theorem ensure_voice_cases guild w :
  (∀ user_channel,
     (ensure_voice guild user_channel w).1 = None ↔ user_channel = None) ∧
  (∀ h target,
     live (voice_client (state_of guild w)) w = Some h →
     channel (vc_at h w) ≠ target →
     ∃ w',
       ensure_voice guild (Some target) w = (Some h, w') ∧
       channel (vc_at h w') = target ∧
       is_connected (vc_at h w') = true ∧
       player (vc_at h w') = player (vc_at h w) ∧
       music_states w' = music_states w) ∧
  (∀ h target,
     live (voice_client (state_of guild w)) w = Some h →
     channel (vc_at h w) = target →
     ensure_voice guild (Some target) w = (Some h, w)).
Proof.
  split; [|split].
  - intros user_channel. split; [|by intros ->].
    destruct user_channel as [c|]; [|done]. unfold ensure_voice.
    destruct (live _ _); [|by destruct (vc_connect _ _)].
    by destruct (negb _).
  - intros h target Hlive Hchan. exists (vc_move_to h target w).
    unfold ensure_voice.
    rewrite (live_get_music_state_id _ _ _ Hlive), Hlive.
    apply Nat.eqb_neq in Hchan. rewrite Hchan. simpl.
    apply live_Some in Hlive as [_ Hconn].
    unfold vc_move_to. rewrite vc_at_update_vc_eq. by repeat split.
  - intros h target Hlive Hchan. unfold ensure_voice.
    rewrite (live_get_music_state_id _ _ _ Hlive), Hlive.
    apply Nat.eqb_eq in Hchan. by rewrite Hchan.
Qed.

(** [ensure_voice] touches neither the queues, nor the current tracks, nor the
    players, nor the pending callbacks and timers. *)
Lemma ensure_voice_frame guild user_channel w :
  let w' := (ensure_voice guild user_channel w).2 in
  (∀ g, queue (state_of g w') = queue (state_of g w)) ∧
  (∀ g, now_playing (state_of g w') = now_playing (state_of g w)) ∧
  (∀ h, player (vc_at h w') = player (vc_at h w)) ∧
  in_flight w' = in_flight w ∧
  timers w' = timers w.
Proof.
  destruct user_channel as [target|]; [|done]. unfold ensure_voice.
  set (w0 := get_music_state guild w).
  assert (Hs : ∀ g, state_of g w0 = state_of g w)
    by (intros; apply state_of_get_music_state).
  assert (Hv : ∀ h, vc_at h w0 = vc_at h w)
    by (intros; apply vc_at_get_music_state).
  assert (Hf : in_flight w0 = in_flight w) by apply in_flight_get_music_state.
  assert (Ht : timers w0 = timers w) by apply timers_get_music_state.
  destruct (live _ _) as [vc|].
  - destruct (negb _); simpl; [|by rewrite Hf, Ht; repeat split; intros; rewrite ?Hs, ?Hv].
    repeat split; try done; intros.
    + by rewrite <- Hs.
    + by rewrite <- Hs.
    + rewrite <- Hv. unfold vc_move_to.
      destruct (decide (vc = h)) as [->|Hne].
      * by rewrite vc_at_update_vc_eq.
      * by rewrite vc_at_update_vc_ne.
  - pose proof (vc_connect_fresh target w0) as Hfresh.
    unfold vc_connect in *. simpl in *.
    set (h0 := fresh (dom (voice_clients w0))) in *.
    repeat split; try done; intros.
    + destruct (decide (guild = g)) as [->|Hne].
      * rewrite state_of_update_state_eq. simpl. by rewrite <- Hs.
      * rewrite state_of_update_state_ne by done. by rewrite <- Hs.
    + destruct (decide (guild = g)) as [->|Hne].
      * rewrite state_of_update_state_eq. simpl. by rewrite <- Hs.
      * rewrite state_of_update_state_ne by done. by rewrite <- Hs.
    + rewrite <- Hv. unfold vc_at. simpl.
      destruct (decide (h0 = h)) as [<-|Hne].
      * by rewrite lookup_insert_eq, Hfresh.
      * by rewrite lookup_insert_ne.
Qed.

(** ** A failed resolution *)

(** C7: when the resolver returns nothing, or returns a result whose track has
    no usable stream URL, [play] leaves every queue and every current track as
    they were and starts no player; when the command got as far as the
    resolver, its only answer is the error message. *)
Theorem play_resolution_failure_keeps_queue guild user_channel requester info w :
  (info = None ∨
   ∃ i track, info = Some i ∧ build_track_from_info i requester = Ok track ∧
              truthy (stream_url track) = false) →
  let w' := play guild user_channel requester info w in
  (∀ g, queue (state_of g w') = queue (state_of g w)) ∧
  (∀ g, now_playing (state_of g w') = now_playing (state_of g w)) ∧
  (∀ h, player (vc_at h w') = player (vc_at h w)) ∧
  in_flight w' = in_flight w ∧
  timers w' = timers w ∧
  (∀ gid c, guild = Some gid → user_channel = Some c →
     ∃ m, (m = MsgNotFound ∨ m = MsgNoStream) ∧
          log w' = log w ++ [EvDefer false; EvSend m true]).
Proof.
  intros Hfail. cbv zeta. unfold play, play_begin.
  destruct guild as [gid|]; [|by repeat split].
  set (w0 := get_music_state gid (emit (EvDefer false) w)).
  assert (Hs : ∀ g, state_of g w0 = state_of g w)
    by (intros; unfold w0; by rewrite state_of_get_music_state).
  assert (Hv : ∀ h, vc_at h w0 = vc_at h w)
    by (intros; unfold w0; by rewrite vc_at_get_music_state).
  assert (Hf : in_flight w0 = in_flight w)
    by (unfold w0; by rewrite in_flight_get_music_state).
  assert (Ht : timers w0 = timers w)
    by (unfold w0; by rewrite timers_get_music_state).
  assert (Hl : log w0 = log w ++ [EvDefer false])
    by (unfold w0; by rewrite log_get_music_state).
  pose proof (ensure_voice_frame gid user_channel w0) as (Eq & En & Ep & Ef & Et).
  assert (Hlog : ∀ c, user_channel = Some c →
            log (ensure_voice gid user_channel w0).2 = log w0).
  { intros c ->. unfold ensure_voice.
    destruct (live _ _); [destruct (negb _)|]; simpl;
      by rewrite ?log_get_music_state. }
  destruct (ensure_voice gid user_channel w0) as [[vc|] w1] eqn:Hens; simpl in *.
  - assert (∃ m, (m = MsgNotFound ∨ m = MsgNoStream) ∧
              play_resolved gid vc requester info w1 = emit (EvSend m true) w1)
      as (m & Hm & ->).
    { unfold play_resolved.
      destruct Hfail as [->|(i & track & -> & Hb & Hurl)].
      - exists MsgNotFound. by split; [left|].
      - exists MsgNoStream. rewrite Hb, Hurl. by split; [right|]. }
    rewrite in_flight_emit, timers_emit, Ef, Et, Hf, Ht.
    repeat split; try done; intros.
    + by rewrite state_of_emit, Eq, Hs.
    + by rewrite state_of_emit, En, Hs.
    + by rewrite vc_at_emit, Ep, Hv.
    + exists m. split; [done|]. simpl.
      rewrite (Hlog c) by done. by rewrite Hl, <- app_assoc.
  - rewrite Ef, Et, Hf, Ht. repeat split; try done; intros.
    + by rewrite Eq, Hs.
    + by rewrite En, Hs.
    + by rewrite Ep, Hv.
    + subst user_channel.
      assert (is_Some (ensure_voice gid (Some c) w0).1) as [? Hsome].
      { unfold ensure_voice.
        destruct (live _ _); [destruct (negb _)|]; simpl; eauto. }
      rewrite Hens in Hsome. discriminate.
Qed.

(** ** Engine start failures *)

Lemma start_playback_nested_activation depth guild w :
  start_playback_nested depth guild w =
  match start_playback_body guild w with
  | Returned w' => (w', None)
  | Raised e w' => (w', Some e)
  | Again w' =>
      match depth with
      | 0 => (w', Some RecursionError)
      | S depth => start_playback_nested depth guild w'
      end
  end.
Proof. by destruct depth. Qed.

Lemma start_playback_nested_discard depth guild h track rest w :
  live (voice_client (state_of guild w)) w = Some h →
  queue (state_of guild w) = track :: rest →
  rejected track →
  start_playback_nested depth guild w =
  match depth with
  | 0 => (discarded guild track rest w, Some RecursionError)
  | S depth => start_playback_nested depth guild (discarded guild track rest w)
  end.
Proof.
  intros Hlive Hq Hrej. rewrite start_playback_nested_activation.
  unfold start_playback_body.
  rewrite (live_get_music_state_id _ _ _ Hlive), Hlive, Hq, Hrej. done.
Qed.

Lemma discarded_live guild h track rest w :
  live (voice_client (state_of guild w)) w = Some h →
  live (voice_client (state_of guild (discarded guild track rest w)))
       (discarded guild track rest w) = Some h.
Proof.
  intros Hlive. unfold discarded.
  rewrite state_of_emit, !state_of_update_state_eq. simpl.
  apply live_Some in Hlive as [-> Hc]. apply live_Some. split; [done|].
  by rewrite vc_at_emit, !vc_at_update_state.
Qed.

Lemma discarded_queue guild track rest w :
  queue (state_of guild (discarded guild track rest w)) = rest.
Proof.
  unfold discarded. by rewrite state_of_emit, !state_of_update_state_eq.
Qed.

Lemma discarded_other guild g track rest w :
  guild ≠ g → state_of g (discarded guild track rest w) = state_of g w.
Proof.
  intros. unfold discarded.
  by rewrite state_of_emit, !state_of_update_state_ne.
Qed.

(** After a prefix of refused tracks that fits in the depth, an empty rest:
    the guild is idle and the coroutine sleeps. *)
Lemma start_playback_nested_all_rejected guild h failing : ∀ depth w,
  length failing ≤ depth →
  live (voice_client (state_of guild w)) w = Some h →
  queue (state_of guild w) = failing →
  Forall rejected failing →
  ∃ w',
    start_playback_nested depth guild w = (w', None) ∧
    queue (state_of guild w') = [] ∧
    now_playing (state_of guild w') = None ∧
    voice_client (state_of guild w') = Some h ∧
    (∀ g, guild ≠ g → state_of g w' = state_of g w) ∧
    voice_clients w' = voice_clients w ∧
    in_flight w' = in_flight w ∧
    timers w' = timers w ++ [(guild, h, clock w + 5)] ∧
    log w' = log w ++ failure_prints failing.
Proof.
  induction failing as [|track failing IH]; intros depth w Hlen Hlive Hq Hrej.
  - rewrite start_playback_nested_activation. unfold start_playback_body.
    rewrite (live_get_music_state_id _ _ _ Hlive), Hlive, Hq.
    eexists. split; [reflexivity|].
    rewrite !state_of_set_timers, state_of_update_state_eq. simpl. rewrite Hq.
    apply live_Some in Hlive as [-> _].
    repeat split; try done.
    + intros. by rewrite state_of_set_timers, state_of_update_state_ne.
    + by rewrite app_nil_r.
  - apply Forall_cons in Hrej as [Hrej1 Hrej].
    destruct depth as [|depth]; [simpl in Hlen; lia|].
    rewrite (start_playback_nested_discard _ _ _ _ _ _ Hlive Hq Hrej1).
    destruct (IH depth (discarded guild track failing w))
      as (w' & -> & ? & ? & ? & Ho & ? & ? & ? & Hlog).
    + simpl in Hlen. lia.
    + by apply discarded_live.
    + apply discarded_queue.
    + done.
    + exists w'. repeat split; try done.
      * intros. rewrite Ho by done. by apply discarded_other.
      * rewrite Hlog. simpl. by rewrite <- app_assoc.
Qed.

Lemma start_playback_all_rejected guild h failing w :
  length failing ≤ Pos.to_nat recursion_limit →
  live (voice_client (state_of guild w)) w = Some h →
  queue (state_of guild w) = failing →
  Forall rejected failing →
  ∃ w',
    start_playback guild w = (w', None) ∧
    queue (state_of guild w') = [] ∧
    now_playing (state_of guild w') = None ∧
    voice_client (state_of guild w') = Some h ∧
    (∀ g, guild ≠ g → state_of g w' = state_of g w) ∧
    voice_clients w' = voice_clients w ∧
    in_flight w' = in_flight w ∧
    timers w' = timers w ++ [(guild, h, clock w + 5)] ∧
    log w' = log w ++ failure_prints failing.
Proof. apply start_playback_nested_all_rejected. Qed.

(** After a prefix of refused tracks that fits in the depth, an accepted
    one: it is started. *)
Lemma start_playback_nested_first_accepted guild h failing track rest : ∀ depth w,
  length failing ≤ depth →
  live (voice_client (state_of guild w)) w = Some h →
  queue (state_of guild w) = failing ++ track :: rest →
  Forall rejected failing →
  ffmpeg_accepts (stream_url track) = true →
  is_playing (vc_at h w) = false →
  ∃ w',
    start_playback_nested depth guild w = (w', None) ∧
    queue (state_of guild w') = rest ∧
    now_playing (state_of guild w') = Some track ∧
    voice_client (state_of guild w') = Some h ∧
    (∀ g, guild ≠ g → state_of g w' = state_of g w) ∧
    vc_at h w' = with_player (Playing track guild) (vc_at h w) ∧
    (∀ h', h ≠ h' → vc_at h' w' = vc_at h' w) ∧
    in_flight w' = in_flight w ∧
    timers w' = timers w ∧
    log w' = log w ++ failure_prints failing ++ [EvPrintNowPlaying guild (title track)].
Proof.
  induction failing as [|bad failing IH]; intros depth w Hlen Hlive Hq Hrej Hacc Hidle.
  - rewrite start_playback_nested_activation. unfold start_playback_body.
    rewrite (live_get_music_state_id _ _ _ Hlive), Hlive, Hq. simpl.
    rewrite Hacc. unfold vc_play. rewrite !vc_at_update_state.
    pose proof Hlive as [Hvc Hconn]%live_Some. rewrite Hconn, Hidle. simpl.
    eexists. split; [reflexivity|].
    rewrite !state_of_emit, !state_of_update_vc, !state_of_update_state_eq.
    rewrite !vc_at_emit, vc_at_update_vc_eq, !vc_at_update_state. simpl.
    rewrite Hvc. repeat split; try done.
    + intros. by rewrite state_of_emit, state_of_update_vc, !state_of_update_state_ne.
    + intros. by rewrite vc_at_emit, vc_at_update_vc_ne, !vc_at_update_state.
  - apply Forall_cons in Hrej as [Hrej1 Hrej]. simpl in Hq.
    destruct depth as [|depth]; [simpl in Hlen; lia|].
    rewrite (start_playback_nested_discard _ _ _ _ _ _ Hlive Hq Hrej1).
    destruct (IH depth (discarded guild bad (failing ++ track :: rest) w))
      as (w' & -> & ? & ? & ? & Ho & ? & ? & ? & ? & Hlog).
    + simpl in Hlen. lia.
    + by apply discarded_live.
    + apply discarded_queue.
    + done.
    + done.
    + done.
    + exists w'. repeat split; try done.
      * intros. rewrite Ho by done. by apply discarded_other.
      * rewrite Hlog. simpl. by rewrite <- !app_assoc.
Qed.

Lemma start_playback_first_accepted guild h failing track rest w :
  length failing ≤ Pos.to_nat recursion_limit →
  live (voice_client (state_of guild w)) w = Some h →
  queue (state_of guild w) = failing ++ track :: rest →
  Forall rejected failing →
  ffmpeg_accepts (stream_url track) = true →
  is_playing (vc_at h w) = false →
  ∃ w',
    start_playback guild w = (w', None) ∧
    queue (state_of guild w') = rest ∧
    now_playing (state_of guild w') = Some track ∧
    voice_client (state_of guild w') = Some h ∧
    (∀ g, guild ≠ g → state_of g w' = state_of g w) ∧
    vc_at h w' = with_player (Playing track guild) (vc_at h w) ∧
    (∀ h', h ≠ h' → vc_at h' w' = vc_at h' w) ∧
    in_flight w' = in_flight w ∧
    timers w' = timers w ∧
    log w' = log w ++ failure_prints failing ++ [EvPrintNowPlaying guild (title track)].
Proof. apply start_playback_nested_first_accepted. Qed.

(** A prefix of refused tracks one longer than the depth: every one of them
    is popped, and the retry behind the last one does not fit. *)
Lemma start_playback_nested_overflow guild h rest : ∀ failing depth w,
  length failing = S depth →
  live (voice_client (state_of guild w)) w = Some h →
  queue (state_of guild w) = failing ++ rest →
  Forall rejected failing →
  ∃ w',
    start_playback_nested depth guild w = (w', Some RecursionError) ∧
    queue (state_of guild w') = rest ∧
    now_playing (state_of guild w') = last failing ∧
    voice_client (state_of guild w') = Some h ∧
    voice_clients w' = voice_clients w ∧
    in_flight w' = in_flight w ∧
    timers w' = timers w ∧
    log w' = log w ++ failure_prints failing.
Proof.
  induction failing as [|track failing IH]; intros depth w Hlen Hlive Hq Hrej;
    [discriminate|].
  apply Forall_cons in Hrej as [Hrej1 Hrej]. simpl in Hq.
  rewrite (start_playback_nested_discard _ _ _ _ _ _ Hlive Hq Hrej1).
  destruct depth as [|depth].
  - destruct failing; [|discriminate]. simpl in *.
    eexists. split; [reflexivity|]. unfold discarded.
    rewrite state_of_emit, !state_of_update_state_eq. simpl.
    by apply live_Some in Hlive as [-> _].
  - destruct (IH depth (discarded guild track (failing ++ rest) w))
      as (w' & -> & ? & Hn & ? & ? & ? & ? & Hlog).
    + simpl in Hlen. lia.
    + by apply discarded_live.
    + apply discarded_queue.
    + done.
    + exists w'. repeat split; try done.
      * rewrite Hn. by destruct failing.
      * rewrite Hlog. simpl. by rewrite <- app_assoc.
Qed.

(** X20: with a live session and a queue that starts with tracks the encoder
    refuses, no more of them than nested retries fit, [start_playback]
    discards each of them once, in order, printing one log line per track and
    sending nothing to the chat; it goes on until either the queue is empty,
    and then the guild is idle with the idle timer set, or a track is
    accepted, and then that track is current, the player renders it and the
    tracks behind it stay queued. *)
Theorem start_playback_retries_within_limit guild h failing rest w :
  length failing ≤ Pos.to_nat recursion_limit →
  live (voice_client (state_of guild w)) w = Some h →
  is_playing (vc_at h w) = false →
  queue (state_of guild w) = failing ++ rest →
  Forall rejected failing →
  match rest with [] => True | next :: _ => ffmpeg_accepts (stream_url next) = true end →
  ∃ w',
    start_playback guild w = (w', None) ∧
    in_flight w' = in_flight w ∧
    match rest with
    | [] =>
        queue (state_of guild w') = [] ∧
        now_playing (state_of guild w') = None ∧
        voice_clients w' = voice_clients w ∧
        timers w' = timers w ++ [(guild, h, clock w + 5)] ∧
        log w' = log w ++ failure_prints failing
    | next :: rest' =>
        queue (state_of guild w') = rest' ∧
        now_playing (state_of guild w') = Some next ∧
        player (vc_at h w') = Playing next guild ∧
        timers w' = timers w ∧
        log w' = log w ++ failure_prints failing ++ [EvPrintNowPlaying guild (title next)]
    end.
Proof.
  intros Hlen Hlive Hidle Hq Hrej Hnext. destruct rest as [|next rest'].
  - rewrite app_nil_r in Hq.
    destruct (start_playback_all_rejected guild h failing w)
      as (w' & -> & Hq' & ? & ? & ? & ? & ? & ? & ?); try done.
    exists w'. by rewrite Hq'.
  - destruct (start_playback_first_accepted guild h failing next rest' w)
      as (w' & -> & Hq' & ? & ? & ? & Hvc & ? & ? & ? & ?); try done.
    exists w'. by rewrite Hq', Hvc.
Qed.

(** C5: the retry is a nested call (line 206), so a queue that starts with
    more refused tracks than nested retries fit does not run until it is
    empty or a track starts: with one refused track more than fit,
    [start_playback] pops every one of them and is then left by
    [RecursionError].  The tracks behind them stay queued, the last refused
    track stays [now_playing], no player is started and no idle timer is set;
    one line per refused track was printed. *)
Theorem start_playback_recursion_error guild h failing rest w :
  live (voice_client (state_of guild w)) w = Some h →
  queue (state_of guild w) = failing ++ rest →
  Forall rejected failing →
  length failing = S (Pos.to_nat recursion_limit) →
  ∃ w',
    start_playback guild w = (w', Some RecursionError) ∧
    queue (state_of guild w') = rest ∧
    now_playing (state_of guild w') = last failing ∧
    voice_client (state_of guild w') = Some h ∧
    voice_clients w' = voice_clients w ∧
    in_flight w' = in_flight w ∧
    timers w' = timers w ∧
    log w' = log w ++ failure_prints failing.
Proof.
  intros Hlive Hq Hrej Hlen.
  by apply (start_playback_nested_overflow guild h rest failing).
Qed.

(** ** Halting the player *)

Lemma end_player_active guild source h w :
  active_for guild source (vc_at h w) →
  end_player h w =
  set_in_flight (in_flight w ++ [guild]) (update_vc h (with_player NoPlayer) w).
Proof. unfold end_player. by intros [-> | ->]. Qed.

Lemma active_is_playing_or_paused guild source vc :
  active_for guild source vc → is_playing vc || is_paused vc = true.
Proof. unfold is_playing, is_paused. by intros [-> | ->]. Qed.

Lemma live_emit vc e w : live vc (emit e w) = live vc w.
Proof. by destruct vc. Qed.

(** ** Stop, then the completion of the halted track *)

(** C1: with a live session whose player holds a track, [stop] empties the
    queue and clears [now_playing] in a world [cleared], and only then asks
    the player to halt; the halt hands one completion callback to the loop.
    When that callback runs [start_playback], the queue is still empty: the
    guild ends with an empty queue, no current track and no player, asleep in
    the idle timer; the stopped track is neither queued nor played again. *)
Theorem stop_then_completion_is_idle guild h source w :
  live (voice_client (state_of guild w)) w = Some h →
  active_for guild source (vc_at h w) →
  in_flight w = [] →
  let stopped := stop (Some guild) w in
  let idle := deliver_completion stopped in
  (∃ cleared,
     queue (state_of guild cleared) = [] ∧
     now_playing (state_of guild cleared) = None ∧
     active_for guild source (vc_at h cleared) ∧
     stopped = emit (EvSend MsgStopped true) (vc_stop h cleared)) ∧
  in_flight stopped = [guild] ∧
  queue (state_of guild stopped) = [] ∧
  now_playing (state_of guild stopped) = None ∧
  queue (state_of guild idle) = [] ∧
  now_playing (state_of guild idle) = None ∧
  player (vc_at h idle) = NoPlayer ∧
  voice_client (state_of guild idle) = Some h ∧
  in_flight idle = [] ∧
  timers idle = timers w ++ [(guild, h, clock w + 5)].
Proof.
  intros Hlive Hact Hflight. cbv zeta.
  set (w0 := emit (EvDefer true) w).
  assert (Hlive0 : live (voice_client (state_of guild w0)) w0 = Some h)
    by (unfold w0; by rewrite state_of_emit, live_emit).
  set (cleared := stop_clear guild w0).
  assert (Hq : queue (state_of guild cleared) = [])
    by (unfold cleared, stop_clear; by rewrite !state_of_update_state_eq).
  assert (Hn : now_playing (state_of guild cleared) = None)
    by (unfold cleared, stop_clear; by rewrite !state_of_update_state_eq).
  assert (Hv : voice_client (state_of guild cleared) = Some h).
  { unfold cleared, stop_clear. rewrite !state_of_update_state_eq. simpl.
    unfold w0. rewrite state_of_emit. by apply live_Some in Hlive as [-> _]. }
  assert (Hvc : vc_at h cleared = vc_at h w) by done.
  assert (Hact' : active_for guild source (vc_at h cleared)) by by rewrite Hvc.
  assert (Hstop : stop (Some guild) w =
                  emit (EvSend MsgStopped true) (vc_stop h cleared)).
  { unfold stop. fold w0.
    rewrite (live_get_music_state_id _ _ _ Hlive0), Hlive0. fold cleared.
    unfold stop_halt.
    by rewrite (active_is_playing_or_paused _ _ _ Hact'). }
  rewrite Hstop.
  split; [exists cleared; by split_and!|].
  unfold vc_stop. rewrite (end_player_active _ _ _ _ Hact').
  assert (Hfl : in_flight cleared = []) by done.
  rewrite in_flight_emit, in_flight_set_in_flight, Hfl.
  rewrite state_of_emit, state_of_set_in_flight, state_of_update_vc.
  split; [done|]. split; [done|]. split; [done|].
  unfold deliver_completion.
  rewrite in_flight_emit, in_flight_set_in_flight.
  simpl app. cbv iota beta.
  set (w1 := set_in_flight [] _).
  destruct (start_playback_all_rejected guild h [] w1 (Nat.le_0_l _))
    as (w' & -> & ? & ? & ? & ? & Hclients & ? & Htimers & ?).
  - unfold w1. apply live_Some. split; [done|].
    rewrite vc_at_set_in_flight, vc_at_emit, vc_at_set_in_flight, vc_at_update_vc_eq.
    simpl. rewrite Hvc. by apply live_Some in Hlive as [_ ?].
  - done.
  - done.
  - repeat split; try done.
    + apply (vc_at_same_clients h) in Hclients. rewrite Hclients.
      unfold w1.
      by rewrite vc_at_set_in_flight, vc_at_emit, vc_at_set_in_flight, vc_at_update_vc_eq.
Qed.

(** ** Queue order *)

Lemma ensure_voice_live guild h target w :
  live (voice_client (state_of guild w)) w = Some h →
  ∃ w',
    ensure_voice guild (Some target) w = (Some h, w') ∧
    music_states w' = music_states w ∧
    is_connected (vc_at h w') = true ∧
    player (vc_at h w') = player (vc_at h w) ∧
    in_flight w' = in_flight w ∧
    timers w' = timers w ∧
    log w' = log w.
Proof.
  intros Hlive. unfold ensure_voice.
  rewrite (live_get_music_state_id _ _ _ Hlive), Hlive.
  pose proof Hlive as [_ Hconn]%live_Some.
  destruct (negb _).
  - eexists. split; [reflexivity|]. unfold vc_move_to.
    by rewrite vc_at_update_vc_eq.
  - by exists w.
Qed.






(** ** The registry never loses an entry *)

Lemma grows_refl w : grows w w.
Proof. unfold grows. set_solver. Qed.

Lemma grows_trans w1 w2 w3 : grows w1 w2 → grows w2 w3 → grows w1 w3.
Proof. unfold grows. set_solver. Qed.

Lemma grows_same w w' w'' :
  music_states w'' = music_states w' → grows w w' → grows w w''.
Proof. unfold grows. by intros ->. Qed.

Lemma grows_emit w w' e : grows w w' → grows w (emit e w').
Proof. by apply grows_same. Qed.

Lemma grows_set_in_flight w w' l : grows w w' → grows w (set_in_flight l w').
Proof. by apply grows_same. Qed.

Lemma grows_set_timers w w' l : grows w w' → grows w (set_timers l w').
Proof. by apply grows_same. Qed.

Lemma grows_set_closing w w' l : grows w w' → grows w (set_closing l w').
Proof. by apply grows_same. Qed.

Lemma grows_set_clock w w' t : grows w w' → grows w (set_clock t w').
Proof. by apply grows_same. Qed.

Lemma grows_set_voice_clients w w' m : grows w w' → grows w (set_voice_clients m w').
Proof. by apply grows_same. Qed.

Lemma grows_update_vc w w' h f : grows w w' → grows w (update_vc h f w').
Proof. by apply grows_same. Qed.

Lemma grows_update_state w w' guild f :
  grows w w' → grows w (update_state guild f w').
Proof. unfold grows, update_state. simpl. rewrite dom_insert_L. set_solver. Qed.

Lemma grows_get_music_state w w' guild :
  grows w w' → grows w (get_music_state guild w').
Proof.
  unfold grows, get_music_state. destruct (music_states w' !! guild); [done|].
  simpl. rewrite dom_insert_L. set_solver.
Qed.

Lemma grows_end_player w w' h : grows w w' → grows w (end_player h w').
Proof. apply grows_same, music_states_end_player. Qed.

Lemma grows_vc_stop w w' h : grows w w' → grows w (vc_stop h w').
Proof. apply grows_end_player. Qed.

Lemma grows_vc_disconnect w w' h : grows w w' → grows w (vc_disconnect h w').
Proof. apply grows_same, music_states_vc_disconnect. Qed.

Lemma grows_vc_move_to w w' h c : grows w w' → grows w (vc_move_to h c w').
Proof. by apply grows_same. Qed.

Lemma grows_vc_pause w w' h : grows w w' → grows w (vc_pause h w').
Proof. apply grows_same. unfold vc_pause. by destruct (player _). Qed.

Lemma grows_vc_resume w w' h : grows w w' → grows w (vc_resume h w').
Proof. apply grows_same. unfold vc_resume. by destruct (player _). Qed.

Lemma grows_vc_connect w w' c : grows w w' → grows w (vc_connect c w').2.
Proof. by apply grows_same. Qed.

Create HintDb registry.
#[local] Hint Resolve grows_refl grows_emit grows_set_in_flight grows_set_timers
  grows_set_closing grows_set_clock grows_set_voice_clients grows_update_vc grows_update_state
  grows_get_music_state grows_end_player grows_vc_stop grows_vc_disconnect
  grows_vc_move_to grows_vc_pause grows_vc_resume grows_vc_connect : registry.

Ltac registry :=
  repeat match goal with
         | |- context [match ?x with _ => _ end] =>
             lazymatch x with
             | context [match _ with _ => _ end] => fail
             | _ => destruct x
             end
         end;
  simpl; eauto 12 with registry.

Lemma grows_start_playback_body w guild :
  grows w (activation_world (start_playback_body guild w)).
Proof. unfold start_playback_body, vc_play. registry. Qed.

Lemma grows_start_playback_here guild w : grows w (start_playback guild w).1.
Proof.
  apply (start_playback_nested_keeps grows).
  - apply grows_refl.
  - apply grows_trans.
  - intros w0. apply grows_start_playback_body.
Qed.

Lemma grows_start_playback w w' guild :
  grows w w' → grows w (start_playback guild w').1.
Proof. intros. eapply grows_trans; [done|apply grows_start_playback_here]. Qed.

#[local] Hint Resolve grows_start_playback : registry.

Lemma grows_ensure_voice w w' guild user_channel :
  grows w w' → grows w (ensure_voice guild user_channel w').2.
Proof. intros. unfold ensure_voice, vc_connect. registry. Qed.

Lemma grows_step w i : grows w (step w i).
Proof.
  destruct i; simpl.
  - unfold join, vc_connect. registry.
  - unfold leave. registry.
  - unfold play, play_begin.
    destruct guild as [gid|]; [|registry].
    pose proof (grows_ensure_voice w
                  (get_music_state gid (emit (EvDefer false) w)) gid user_channel) as He.
    destruct (ensure_voice _ _ _) as [[vc|] w1]; simpl in He;
      assert (Hw1 : grows w w1) by auto with registry; [|done].
    unfold play_resolved.
    repeat match goal with
           | |- context [match ?x with _ => _ end] =>
               lazymatch x with
               | start_playback _ _ => fail
               | _ => destruct x
               end
           end; auto with registry.
    set (w2 := emit _ _).
    pose proof (grows_start_playback w w2 gid) as Hs.
    destruct (start_playback gid w2) as [w3 [e|]]; simpl in Hs;
      unfold w2 in *; auto 8 with registry.
  - unfold skip. registry.
  - unfold pause. registry.
  - unfold resume. registry.
  - unfold stop, stop_halt, stop_clear. registry.
  - unfold now_playing_cmd. registry.
  - unfold queue_cmd. registry.
  - unfold track_ended. registry.
  - unfold deliver_completion. destruct (in_flight w) as [|g rest]; [registry|].
    pose proof (grows_start_playback w (set_in_flight rest w) g) as Hs.
    destruct (start_playback g _) as [w3 [e|]]; simpl in Hs; auto with registry.
  - unfold elapse. registry.
  - unfold grace_elapsed, idle_recheck_begin. registry.
  - unfold disconnect_completed, idle_recheck_end. registry.
Qed.

(** ** Leaving, stopping, and the idle disconnect *)

Lemma state_of_end_player g h w : state_of g (end_player h w) = state_of g w.
Proof. apply state_of_same_states, music_states_end_player. Qed.

Lemma state_of_vc_disconnect g h w : state_of g (vc_disconnect h w) = state_of g w.
Proof. apply state_of_same_states, music_states_vc_disconnect. Qed.

Lemma connected_vc_disconnect h w : is_connected (vc_at h (vc_disconnect h w)) = false.
Proof. unfold vc_disconnect. by rewrite vc_at_update_vc_eq. Qed.

Lemma connected_end_player h h' w :
  is_connected (vc_at h' (end_player h w)) = is_connected (vc_at h' w).
Proof.
  unfold end_player.
  destruct (player (vc_at h w)); [done | |];
    rewrite vc_at_set_in_flight;
    (destruct (decide (h = h')) as [->|?];
      [by rewrite vc_at_update_vc_eq | by rewrite vc_at_update_vc_ne]).
Qed.

Lemma log_end_player h w : log (end_player h w) = log w.
Proof. unfold end_player. by destruct (player _). Qed.

Lemma idle_recheck_eq guild vc w :
  idle_recheck guild vc w =
  if negb (is_playing (vc_at vc w)) && queue_is_empty (queue (state_of guild w))
  then update_state guild (with_voice_client None) (vc_disconnect vc w)
  else w.
Proof.
  unfold idle_recheck, idle_recheck_begin, idle_recheck_end.
  by destruct (_ && _).
Qed.

(** The re-check after the sleep, when the player is gone and the queue is
    empty: the client is disconnected and the stored handle cleared. *)
Lemma idle_recheck_closes guild h w :
  player (vc_at h w) = NoPlayer →
  queue (state_of guild w) = [] →
  let w' := idle_recheck guild h w in
  is_connected (vc_at h w') = false ∧
  voice_client (state_of guild w') = None ∧
  queue (state_of guild w') = [] ∧
  now_playing (state_of guild w') = now_playing (state_of guild w) ∧
  log w' = log w.
Proof.
  intros Hplayer Hq. cbv zeta. rewrite idle_recheck_eq. unfold is_playing.
  rewrite Hplayer, Hq. simpl.
  rewrite vc_at_update_state, connected_vc_disconnect.
  rewrite state_of_update_state_eq, state_of_vc_disconnect. simpl.
  split_and!; try done.
  unfold vc_disconnect, vc_stop. simpl. apply log_end_player.
Qed.

(** C6 (as amended): with a live session, [leave] resets the guild to an empty
    queue, no current track and no stored voice client, and disconnects the
    client; [stop] empties the queue and clears the current track but keeps
    the stored voice client, still connected; the idle disconnect (entering
    idle with an empty queue and no player, then the re-check) leaves an empty
    queue, no current track and no stored voice client; and no step of the bot
    removes a guild's entry from the registry. *)
Theorem leave_stop_and_idle_disconnect_reset guild h w :
  live (voice_client (state_of guild w)) w = Some h →
  (let w' := leave (Some guild) w in
   queue (state_of guild w') = [] ∧
   now_playing (state_of guild w') = None ∧
   voice_client (state_of guild w') = None ∧
   is_connected (vc_at h w') = false) ∧
  (let w' := stop (Some guild) w in
   queue (state_of guild w') = [] ∧
   now_playing (state_of guild w') = None ∧
   voice_client (state_of guild w') = Some h ∧
   is_connected (vc_at h w') = true) ∧
  (queue (state_of guild w) = [] →
   player (vc_at h w) = NoPlayer →
   let w' := idle_recheck guild h (start_playback guild w).1 in
   queue (state_of guild w') = [] ∧
   now_playing (state_of guild w') = None ∧
   voice_client (state_of guild w') = None ∧
   is_connected (vc_at h w') = false) ∧
  (∀ i, dom (music_states w) ⊆ dom (music_states (step w i))).
Proof.
  intros Hlive. cbv zeta.
  set (w0 := emit (EvDefer true) w).
  assert (Hlive0 : live (voice_client (state_of guild w0)) w0 = Some h)
    by (unfold w0; by rewrite state_of_emit, live_emit).
  pose proof Hlive as [Hvc Hconn]%live_Some.
  split_and!.
  - unfold leave. fold w0.
    rewrite (live_get_music_state_id _ _ _ Hlive0), Hlive0.
    by rewrite state_of_emit, state_of_update_state_eq, state_of_vc_disconnect,
      !state_of_update_state_eq.
  - unfold leave. fold w0.
    rewrite (live_get_music_state_id _ _ _ Hlive0), Hlive0.
    by rewrite state_of_emit, state_of_update_state_eq, state_of_vc_disconnect,
      !state_of_update_state_eq.
  - unfold leave. fold w0.
    rewrite (live_get_music_state_id _ _ _ Hlive0), Hlive0.
    by rewrite state_of_emit, state_of_update_state_eq.
  - unfold leave. fold w0.
    rewrite (live_get_music_state_id _ _ _ Hlive0), Hlive0.
    by rewrite vc_at_emit, vc_at_update_state, connected_vc_disconnect.
  - unfold stop. fold w0.
    rewrite (live_get_music_state_id _ _ _ Hlive0), Hlive0.
    rewrite state_of_emit. unfold stop_halt, vc_stop, stop_clear.
    destruct (_ || _); by rewrite ?state_of_end_player, !state_of_update_state_eq.
  - unfold stop. fold w0.
    rewrite (live_get_music_state_id _ _ _ Hlive0), Hlive0.
    rewrite state_of_emit. unfold stop_halt, vc_stop, stop_clear.
    destruct (_ || _); by rewrite ?state_of_end_player, !state_of_update_state_eq.
  - unfold stop. fold w0.
    rewrite (live_get_music_state_id _ _ _ Hlive0), Hlive0.
    rewrite state_of_emit. unfold stop_halt, vc_stop, stop_clear.
    destruct (_ || _);
      rewrite ?state_of_end_player, !state_of_update_state_eq; simpl;
      unfold w0; by rewrite state_of_emit.
  - unfold stop. fold w0.
    rewrite (live_get_music_state_id _ _ _ Hlive0), Hlive0.
    rewrite vc_at_emit. unfold stop_halt, vc_stop, stop_clear.
    destruct (_ || _); by rewrite ?connected_end_player, !vc_at_update_state.
  - intros Hq Hplayer.
    destruct (start_playback_all_rejected guild h [] w (Nat.le_0_l _))
      as (w' & -> & Hq' & Hn' & _ & _ & Hclients & _); try done.
    simpl.
    destruct (idle_recheck_closes guild h w') as (? & ? & ? & Hn & _); try done.
    + by rewrite (vc_at_same_clients _ _ _ Hclients).
    + split_and!; try done. by rewrite Hn.
  - apply grows_step.
Qed.

(** ** The grace period *)

Lemma play_while_idle guild h r track w :
  live (voice_client (state_of guild w)) w = Some h →
  player (vc_at h w) = NoPlayer →
  queue (state_of guild w) = [] →
  resolves_to r track →
  ffmpeg_accepts (stream_url track) = true →
  let w' := step w (play_input guild r) in
  now_playing (state_of guild w') = Some track ∧
  queue (state_of guild w') = [] ∧
  player (vc_at h w') = Playing track guild ∧
  is_connected (vc_at h w') = true ∧
  voice_client (state_of guild w') = Some h ∧
  timers w' = timers w ∧
  in_flight w' = in_flight w.
Proof.
  intros Hlive Hplayer Hq [Hbuild Hurl] Hacc. cbv zeta.
  unfold step, play_input, play, play_begin.
  set (w0 := get_music_state guild (emit (EvDefer false) w)).
  assert (Hw0 : music_states w0 = music_states w).
  { unfold w0. rewrite live_get_music_state_id with (h := h); [done|].
    by rewrite state_of_emit, live_emit. }
  assert (Hv0 : voice_clients w0 = voice_clients w)
    by (unfold w0; by rewrite voice_clients_get_music_state).
  pose proof Hlive as [Hvc Hconn]%live_Some.
  assert (Hlive0 : live (voice_client (state_of guild w0)) w0 = Some h).
  { apply live_Some.
    by rewrite (state_of_same_states _ _ _ Hw0), (vc_at_same_clients _ _ _ Hv0). }
  destruct (ensure_voice_live guild h r.1.1 w0 Hlive0)
    as (w1 & -> & Hs1 & Hc1 & Hp1 & Hf1 & Ht1 & _).
  assert (Hidle : player (vc_at h w1) = NoPlayer).
  { by rewrite Hp1, (vc_at_same_clients _ _ _ Hv0). }
  assert (Hq1 : queue (state_of guild w1) = []).
  { by rewrite (state_of_same_states _ _ _ Hs1), (state_of_same_states _ _ _ Hw0). }
  set (w2 := emit (EvSend (MsgPlayingNow (title track)) false)
               (update_state guild (with_queue ([] ++ [track])) w1)).
  assert (Hres : play_resolved guild h r.1.2 (Some r.2) w1 =
                 match start_playback guild w2 with
                 | (w, None) => w
                 | (w, Some e) => emit (EvUncaught e) w
                 end).
  { unfold play_resolved. rewrite Hbuild, Hurl, Hq1. simpl negb. cbv iota.
    rewrite vc_at_update_state. unfold is_playing, is_paused.
    by rewrite Hidle. }
  rewrite Hres.
  assert (Hv2 : vc_at h w2 = vc_at h w1) by done.
  destruct (start_playback_first_accepted guild h [] track [] w2 (Nat.le_0_l _))
    as (w3 & -> & Hq3 & Hn3 & Hvc3 & _ & Hp3 & _ & Hf3 & Ht3 & _); try done.
  - apply live_Some. unfold w2.
    rewrite state_of_emit, state_of_update_state_eq. simpl.
    by rewrite (state_of_same_states _ _ _ Hs1), (state_of_same_states _ _ _ Hw0).
  - unfold w2. by rewrite state_of_emit, state_of_update_state_eq.
  - unfold is_playing. by rewrite Hv2, Hidle.
  - rewrite Hp3, Hv2. split_and!; try done.
    + rewrite Ht3. unfold w2. rewrite timers_emit. simpl. rewrite Ht1.
      unfold w0. by rewrite timers_get_music_state.
    + rewrite Hf3. unfold w2. rewrite in_flight_emit. simpl. rewrite Hf1.
      unfold w0. by rewrite in_flight_get_music_state.
Qed.

Lemma start_playback_body_clock guild w :
  clock (activation_world (start_playback_body guild w)) = clock w ∧
  closing (activation_world (start_playback_body guild w)) = closing w.
Proof.
  assert (Hg : clock (get_music_state guild w) = clock w ∧
               closing (get_music_state guild w) = closing w)
    by (unfold get_music_state; by destruct (music_states w !! guild)).
  unfold start_playback_body, vc_play.
  destruct (live _ _); [|done].
  destruct (queue _); [done|].
  destruct (ffmpeg_accepts _); [|done].
  destruct (negb _); [done|]. by destruct (is_playing _).
Qed.

(** [start_playback] neither moves the clock nor touches the pending
    disconnects. *)
Lemma start_playback_clock guild w :
  clock (start_playback guild w).1 = clock w ∧
  closing (start_playback guild w).1 = closing w.
Proof.
  apply (start_playback_nested_keeps
           (λ a b, clock b = clock a ∧ closing b = closing a)).
  - done.
  - intros a b c [-> ->] [-> ->]. done.
  - apply start_playback_body_clock.
Qed.

Lemma ensure_voice_clock guild user_channel w :
  clock (ensure_voice guild user_channel w).2 = clock w ∧
  closing (ensure_voice guild user_channel w).2 = closing w.
Proof.
  assert (Hg : clock (get_music_state guild w) = clock w ∧
               closing (get_music_state guild w) = closing w)
    by (unfold get_music_state; by destruct (music_states w !! guild)).
  unfold ensure_voice. destruct user_channel; [|done].
  destruct (live _ _); [by destruct (negb _)|done].
Qed.

(** [play] neither moves the clock nor touches the pending disconnects. *)
Lemma play_clock guild user_channel requester info w :
  clock (play guild user_channel requester info w) = clock w ∧
  closing (play guild user_channel requester info w) = closing w.
Proof.
  unfold play, play_begin. destruct guild as [guild|]; [|done].
  set (w0 := get_music_state guild (emit (EvDefer false) w)).
  assert (H0 : clock w0 = clock w ∧ closing w0 = closing w).
  { unfold w0, get_music_state. by destruct (music_states _ !! guild). }
  pose proof (ensure_voice_clock guild user_channel w0) as H1.
  destruct (ensure_voice guild user_channel w0) as [[vc|] w1]; simpl in H1;
    [|destruct H0, H1; split; congruence].
  assert (Hw1 : clock w1 = clock w ∧ closing w1 = closing w)
    by (destruct H0, H1; split; congruence).
  clearbody w0. clear H0 H1. unfold play_resolved.
  destruct info as [info|]; [|done].
  destruct (build_track_from_info info requester) as [track|e]; [|done].
  destruct (negb (truthy _)); [done|].
  destruct (_ && _); [|done].
  set (w2 := emit _ _).
  pose proof (start_playback_clock guild w2) as H2.
  destruct (start_playback guild w2) as [w3 [e|]]; simpl in H2;
    destruct Hw1, H2; split; simpl; congruence.
Qed.

Lemma vc_disconnect_idle h w :
  player (vc_at h w) = NoPlayer →
  vc_disconnect h w = update_vc h (with_connected false) w.
Proof. intros Hp. unfold vc_disconnect, vc_stop, end_player. by rewrite Hp. Qed.

(** The two tests of the re-check hold: the disconnect is called. *)
Lemma idle_recheck_begin_idle guild h w :
  player (vc_at h w) = NoPlayer →
  queue (state_of guild w) = [] →
  idle_recheck_begin guild h w = (true, update_vc h (with_connected false) w).
Proof.
  intros Hp Hq. unfold idle_recheck_begin, is_playing. rewrite Hp, Hq. simpl.
  by rewrite vc_disconnect_idle.
Qed.

(** One of the two tests of the re-check fails: nothing is done. *)
Lemma idle_recheck_begin_busy guild h w :
  is_playing (vc_at h w) = true ∨ queue (state_of guild w) ≠ [] →
  idle_recheck_begin guild h w = (false, w).
Proof.
  intros Hbusy. unfold idle_recheck_begin.
  destruct Hbusy as [-> | Hne]; [done|].
  destruct (queue (state_of guild w)); [done|]. by rewrite andb_false_r.
Qed.

(** C2 (as amended): entering idle with an empty queue, [start_playback]
    clears the current track and sleeps for five seconds, the session left
    open; before the five seconds are over nothing happens.  Then the two
    tests are made in one step: if the client has no player and the queue is
    empty, the client is disconnected in that same step, printing and sending
    nothing, and the stored handle is cleared in the step that follows the
    end of the disconnect; if the client is playing or the queue is not
    empty, nothing is done and the session stays open.  So, when a track is
    enqueued during the sleep and is still playing at the re-check, the
    session stays open; when nothing happens during the sleep, it is closed
    and no handle is stored. *)
Theorem idle_grace_period_recheck guild h w :
  live (voice_client (state_of guild w)) w = Some h →
  queue (state_of guild w) = [] →
  player (vc_at h w) = NoPlayer →
  timers w = [] →
  closing w = [] →
  let sleeping := (start_playback guild w).1 in
  (now_playing (state_of guild sleeping) = None ∧
   timers sleeping = [(guild, h, clock w + 5)] ∧
   clock sleeping = clock w ∧
   voice_client (state_of guild sleeping) = Some h ∧
   is_connected (vc_at h sleeping) = true) ∧
  (∀ seconds, seconds < 5 →
     grace_elapsed (elapse seconds sleeping) = elapse seconds sleeping) ∧
  (∀ w2, timers w2 = timers sleeping → closing w2 = [] → clock w + 5 ≤ clock w2 →
     player (vc_at h w2) = NoPlayer → queue (state_of guild w2) = [] →
     let w3 := grace_elapsed w2 in
     let w4 := disconnect_completed w3 in
     is_connected (vc_at h w3) = false ∧
     voice_client (state_of guild w3) = voice_client (state_of guild w2) ∧
     timers w3 = [] ∧
     closing w3 = [guild] ∧
     is_connected (vc_at h w4) = false ∧
     voice_client (state_of guild w4) = None ∧
     closing w4 = [] ∧
     log w4 = log w2) ∧
  (∀ w2, timers w2 = timers sleeping → clock w + 5 ≤ clock w2 →
     is_playing (vc_at h w2) = true ∨ queue (state_of guild w2) ≠ [] →
     grace_elapsed w2 = set_timers [] w2) ∧
  (∀ r track, resolves_to r track → ffmpeg_accepts (stream_url track) = true →
     let w3 := run sleeping [play_input guild r; Elapse 5; GraceElapsed] in
     now_playing (state_of guild w3) = Some track ∧
     is_playing (vc_at h w3) = true ∧
     is_connected (vc_at h w3) = true ∧
     voice_client (state_of guild w3) = Some h ∧
     timers w3 = [] ∧
     closing w3 = []) ∧
  (let w3 := run sleeping [Elapse 5; GraceElapsed] in
   let w4 := step w3 Disconnected in
   is_connected (vc_at h w3) = false ∧
   voice_client (state_of guild w3) = Some h ∧
   is_connected (vc_at h w4) = false ∧
   voice_client (state_of guild w4) = None).
Proof.
  intros Hlive Hq Hplayer Htimers Hclosing. cbv zeta.
  pose proof Hlive as [Hvc Hconn]%live_Some.
  pose proof (start_playback_clock guild w) as [Hclock1 Hclosing1].
  destruct (start_playback_all_rejected guild h [] w (Nat.le_0_l _))
    as (w1 & Hstart & Hq1 & Hn1 & Hvc1 & _ & Hclients & _ & Ht1 & _); try done.
  rewrite Hstart in *. simpl fst in *. rewrite Htimers in Ht1. simpl in Ht1.
  rewrite Hclosing in Hclosing1.
  assert (Hv1 : vc_at h w1 = vc_at h w) by by apply vc_at_same_clients.
  assert (Hlive1 : live (voice_client (state_of guild w1)) w1 = Some h).
  { apply live_Some. by rewrite Hv1. }
  assert (Hclose : ∀ w2, timers w2 = timers w1 → clock w + 5 ≤ clock w2 →
            player (vc_at h w2) = NoPlayer → queue (state_of guild w2) = [] →
            grace_elapsed w2 =
            set_closing (closing w2 ++ [guild])
              (update_vc h (with_connected false) (set_timers [] w2))).
  { intros w2 Ht2 Hdue Hp2 Hq2. unfold grace_elapsed. rewrite Ht2, Ht1.
    apply Nat.leb_le in Hdue. rewrite Hdue.
    by rewrite (idle_recheck_begin_idle guild h (set_timers [] w2)). }
  assert (Hbusy : ∀ w2, timers w2 = timers w1 → clock w + 5 ≤ clock w2 →
            is_playing (vc_at h w2) = true ∨ queue (state_of guild w2) ≠ [] →
            grace_elapsed w2 = set_timers [] w2).
  { intros w2 Ht2 Hdue Hb. unfold grace_elapsed. rewrite Ht2, Ht1.
    apply Nat.leb_le in Hdue. rewrite Hdue.
    by rewrite (idle_recheck_begin_busy guild h (set_timers [] w2)). }
  split; [by rewrite Hv1|]. split; [|split; [|split; [done|split]]].
  - intros seconds Hs. unfold grace_elapsed, elapse.
    cbn [timers clock set_clock]. rewrite Ht1, Hclock1.
    assert (Hlate : (clock w + 5 <=? clock w + seconds) = false)
      by (apply Nat.leb_gt; lia).
    by rewrite Hlate.
  - intros w2 Ht2 Hc2 Hdue Hp2 Hq2.
    rewrite (Hclose w2 Ht2 Hdue Hp2 Hq2), Hc2.
    unfold disconnect_completed, idle_recheck_end.
    cbn [closing set_closing app].
    rewrite !vc_at_update_state, state_of_update_state_eq, !vc_at_set_closing,
      vc_at_update_vc_eq.
    by split_and!.
  - intros r track Hres Hacc.
    destruct (play_while_idle guild h r track w1)
      as (Hn2 & Hq2 & Hp2 & Hc2 & Hvc2 & Ht2 & _); try done; [by rewrite Hv1|].
    pose proof (play_clock (Some guild) (Some r.1.1) r.1.2 (Some r.2) w1)
      as [Hk2 Hcl2].
    unfold run. cbn [foldl]. cbn [step] in *.
    change (play (Some guild) (Some r.1.1) r.1.2 (Some r.2) w1)
      with (step w1 (play_input guild r)) in *.
    set (w2 := step w1 (play_input guild r)) in *. clearbody w2.
    rewrite (Hbusy (elapse 5 w2)).
    + change (state_of guild (set_timers [] (elapse 5 w2))) with (state_of guild w2).
      change (vc_at h (set_timers [] (elapse 5 w2))) with (vc_at h w2).
      change (closing (set_timers [] (elapse 5 w2))) with (closing w2).
      unfold is_playing. rewrite Hp2, Hcl2. by split_and!.
    + done.
    + change (clock (elapse 5 w2)) with (clock w2 + 5). lia.
    + left. change (vc_at h (elapse 5 w2)) with (vc_at h w2).
      unfold is_playing. by rewrite Hp2.
  - assert (Hp1 : player (vc_at h (elapse 5 w1)) = NoPlayer)
      by by rewrite vc_at_elapse, Hv1.
    assert (Hdue : clock w + 5 ≤ clock (elapse 5 w1))
      by (change (clock (elapse 5 w1)) with (clock w1 + 5); lia).
    unfold run. cbn [foldl step].
    rewrite (Hclose (elapse 5 w1) eq_refl Hdue Hp1 Hq1).
    unfold disconnect_completed, idle_recheck_end. cbn [closing set_closing].
    change (closing (elapse 5 w1)) with (closing w1). rewrite Hclosing1.
    cbn [app].
    rewrite !vc_at_update_state, state_of_update_state_eq, !vc_at_set_closing,
      vc_at_update_vc_eq.
    by split_and!.
Qed.

(** ** Further properties: the registry *)

(** X1: [get_music_state] leaves the guild with an entry, the one it had or a
    fresh empty state; it changes no other entry and nothing else of the
    world; and calling it again changes nothing. *)
Theorem get_music_state_creates_once guild w :
  music_states (get_music_state guild w) !! guild = Some (state_of guild w) ∧
  (music_states w !! guild = None → state_of guild w = GuildMusicState_init) ∧
  (∀ g, g ≠ guild → music_states (get_music_state guild w) !! g = music_states w !! g) ∧
  get_music_state guild (get_music_state guild w) = get_music_state guild w ∧
  voice_clients (get_music_state guild w) = voice_clients w ∧
  log (get_music_state guild w) = log w.
Proof.
  assert (H1 : music_states (get_music_state guild w) !! guild
               = Some (state_of guild w)).
  { unfold get_music_state, state_of.
    destruct (music_states w !! guild) eqn:E; simpl.
    - by rewrite E.
    - by rewrite lookup_insert_eq. }
  split_and!.
  - exact H1.
  - unfold state_of. by intros ->.
  - intros g Hne. unfold get_music_state.
    destruct (music_states w !! guild); [done|]. simpl.
    by rewrite lookup_insert_ne.
  - unfold get_music_state at 1. by rewrite H1.
  - apply voice_clients_get_music_state.
  - apply log_get_music_state.
Qed.

(** ** Further properties: what a command leaves alone *)

Lemma state_of_set_voice_clients g m w :
  state_of g (set_voice_clients m w) = state_of g w.
Proof. done. Qed.

Lemma state_of_vc_pause g h w : state_of g (vc_pause h w) = state_of g w.
Proof. unfold vc_pause. by destruct (player _). Qed.

Lemma state_of_vc_resume g h w : state_of g (vc_resume h w) = state_of g w.
Proof. unfold vc_resume. by destruct (player _). Qed.

Ltac split_matches :=
  repeat match goal with
         | |- context [match ?x with _ => _ end] =>
             lazymatch x with
             | context [match _ with _ => _ end] => fail
             | start_playback _ _ => fail
             | _ => destruct x
             end
         end.

Ltac other_guild :=
  repeat first
    [ rewrite state_of_emit | rewrite state_of_set_timers
    | rewrite state_of_set_in_flight | rewrite state_of_update_vc
    | rewrite state_of_end_player | rewrite state_of_vc_disconnect
    | rewrite state_of_vc_pause | rewrite state_of_vc_resume
    | rewrite state_of_set_voice_clients
    | rewrite state_of_update_state_ne by assumption
    | rewrite state_of_get_music_state ].

Lemma start_playback_body_other guild g w :
  guild ≠ g →
  state_of g (activation_world (start_playback_body guild w)) = state_of g w.
Proof.
  intros Hne. unfold start_playback_body, vc_play.
  split_matches; cbn [activation_world]; by other_guild.
Qed.

Lemma start_playback_other guild g w :
  guild ≠ g → state_of g (start_playback guild w).1 = state_of g w.
Proof.
  intros Hne.
  apply (start_playback_nested_keeps (λ a b, state_of g b = state_of g a)).
  - done.
  - intros a b c Hab Hbc. by rewrite Hbc.
  - intros a. by apply start_playback_body_other.
Qed.

Lemma state_of_after_start_playback g guild w :
  state_of g match start_playback guild w with
             | (w', None) => w'
             | (w', Some e) => emit (EvUncaught e) w'
             end = state_of g (start_playback guild w).1.
Proof. by destruct (start_playback guild w) as [w' [e|]]. Qed.

Lemma ensure_voice_other guild g user_channel w :
  guild ≠ g → state_of g (ensure_voice guild user_channel w).2 = state_of g w.
Proof.
  intros Hne. unfold ensure_voice, vc_connect, vc_move_to.
  split_matches; cbn [snd]; by other_guild.
Qed.

(** X2: a slash command sent from one guild changes no other guild's state:
    neither its queue, nor its current track, nor its stored voice client. *)
Theorem commands_touch_only_their_guild guild g i w :
  is_command_of guild i →
  guild ≠ g →
  state_of g (step w i) = state_of g w.
Proof.
  intros Hcmd Hne. destruct i; simpl in Hcmd; try done; subst; cbn [step].
  - unfold join, vc_connect, vc_move_to. split_matches; by other_guild.
  - unfold leave. split_matches; by other_guild.
  - unfold play, play_begin.
    pose proof (ensure_voice_other guild g user_channel
                  (get_music_state guild (emit (EvDefer false) w)) Hne) as He.
    destruct (ensure_voice _ _ _) as [[vc|] w1]; cbn [snd] in He;
      [|rewrite He; by other_guild].
    unfold play_resolved. split_matches; other_guild; try by rewrite He; other_guild.
    rewrite state_of_after_start_playback, start_playback_other by done.
    other_guild. rewrite He. by other_guild.
  - unfold skip, vc_stop. split_matches; by other_guild.
  - unfold pause. split_matches; by other_guild.
  - unfold resume. split_matches; by other_guild.
  - unfold stop, stop_halt, stop_clear, vc_stop. split_matches; by other_guild.
  - unfold now_playing_cmd. split_matches; by other_guild.
  - unfold queue_cmd. split_matches; by other_guild.
Qed.

(** ** Further properties: commands that only answer *)

Lemma answers_only_reply guild e1 e2 w :
  answers_only w (emit e2 (get_music_state guild (emit e1 w))) [e1; e2].
Proof.
  unfold answers_only. split_and!.
  - intros g. by rewrite state_of_emit, state_of_get_music_state, state_of_emit.
  - cbn [voice_clients emit]. by rewrite voice_clients_get_music_state.
  - rewrite in_flight_emit. by rewrite in_flight_get_music_state.
  - rewrite timers_emit. by rewrite timers_get_music_state.
  - unfold get_music_state. by destruct (music_states _ !! guild).
  - unfold get_music_state. by destruct (music_states _ !! guild).
  - cbn [log emit]. rewrite log_get_music_state. cbn [log emit].
    by rewrite <- app_assoc.
Qed.

Lemma answers_only_defer e w : answers_only w (emit e w) [e].
Proof. by unfold answers_only. Qed.

(** X3: without a live voice session (no stored client, or a client that is
    not connected), [leave], [skip], [pause], [resume] and [stop] answer that
    the bot is in no voice channel and change nothing: in particular [leave]
    and [stop] do not clear the queue. *)
Theorem commands_without_session_only_answer guild w :
  live (voice_client (state_of guild w)) w = None →
  let reply := [EvDefer true; EvSend MsgNotInVoice true] in
  answers_only w (leave (Some guild) w) reply ∧
  answers_only w (skip (Some guild) w) reply ∧
  answers_only w (pause (Some guild) w) reply ∧
  answers_only w (resume (Some guild) w) reply ∧
  answers_only w (stop (Some guild) w) reply.
Proof.
  intros Hlive. cbv zeta.
  assert (H0 : live (voice_client
                 (state_of guild (get_music_state guild (emit (EvDefer true) w))))
                 (get_music_state guild (emit (EvDefer true) w)) = None).
  { by rewrite state_of_get_music_state, live_get_music_state, state_of_emit, live_emit. }
  unfold leave, skip, pause, resume, stop. rewrite H0.
  split_and!; apply answers_only_reply.
Qed.

(** X4: [nowplaying] and [queue] only write to the log: they change no
    guild's state, no voice client, no pending callback and no timer,
    whatever the guild's state is and even when formatting a duration fails. *)
Theorem reports_change_nothing guild w :
  (∃ events, answers_only w (now_playing_cmd guild w) events) ∧
  (∃ events, answers_only w (queue_cmd guild w) events).
Proof.
  split.
  - unfold now_playing_cmd. destruct guild as [guild|].
    + split_matches; eexists; apply answers_only_reply.
    + eexists. apply answers_only_defer.
  - unfold queue_cmd. destruct guild as [guild|].
    + split_matches; eexists; apply answers_only_reply.
    + eexists. apply answers_only_defer.
Qed.

(** ** Further properties: pause and resume *)

Lemma live_after_defer guild h e w :
  live (voice_client (state_of guild w)) w = Some h →
  get_music_state guild (emit e w) = emit e w ∧
  live (voice_client (state_of guild (emit e w))) (emit e w) = Some h.
Proof.
  intros Hlive.
  assert (H : live (voice_client (state_of guild (emit e w))) (emit e w) = Some h)
    by by rewrite state_of_emit, live_emit.
  split; [|done]. by apply live_get_music_state_id with (h := h).
Qed.

Lemma with_player_same vc : with_player (player vc) vc = vc.
Proof. by destruct vc. Qed.

Lemma with_player_twice p q vc : with_player p (with_player q vc) = with_player p vc.
Proof. done. Qed.

(** X5: [pause] on a playing track keeps the source in a paused player and
    touches no guild state; [resume] right after gives back every voice
    client exactly as it was before the pause, the two commands having only
    sent their confirmations. *)
Theorem pause_then_resume_restores guild h source g0 w :
  live (voice_client (state_of guild w)) w = Some h →
  player (vc_at h w) = Playing source g0 →
  let paused := pause (Some guild) w in
  let resumed := resume (Some guild) paused in
  player (vc_at h paused) = Paused source g0 ∧
  (∀ g, state_of g paused = state_of g w) ∧
  in_flight paused = in_flight w ∧
  (∀ h', vc_at h' resumed = vc_at h' w) ∧
  (∀ g, state_of g resumed = state_of g w) ∧
  in_flight resumed = in_flight w ∧
  timers resumed = timers w ∧
  log resumed = log w ++ [EvDefer true; EvSend MsgPausedOk true;
                          EvDefer true; EvSend MsgResumed true].
Proof.
  intros Hlive Hplayer. cbv zeta.
  destruct (live_after_defer guild h (EvDefer true) w Hlive) as [Hg0 Hl0].
  assert (Hp : pause (Some guild) w =
               emit (EvSend MsgPausedOk true)
                 (update_vc h (with_player (Paused source g0)) (emit (EvDefer true) w))).
  { unfold pause. rewrite Hg0, Hl0, vc_at_emit. unfold is_playing, vc_pause.
    by rewrite vc_at_emit, Hplayer. }
  rewrite Hp. set (w1 := emit (EvSend MsgPausedOk true) _).
  assert (Hv1 : vc_at h w1 = with_player (Paused source g0) (vc_at h w)).
  { unfold w1. by rewrite vc_at_emit, vc_at_update_vc_eq, vc_at_emit. }
  assert (Hlive1 : live (voice_client (state_of guild w1)) w1 = Some h).
  { apply live_Some. apply live_Some in Hlive as [Hvc Hc]. split; [done|].
    by rewrite Hv1. }
  destruct (live_after_defer guild h (EvDefer true) w1 Hlive1) as [Hg1 Hl1].
  assert (Hr : resume (Some guild) w1 =
               emit (EvSend MsgResumed true)
                 (update_vc h (with_player (Playing source g0)) (emit (EvDefer true) w1))).
  { unfold resume. rewrite Hg1, Hl1, vc_at_emit. unfold is_paused, vc_resume.
    by rewrite vc_at_emit, Hv1. }
  rewrite Hr. split_and!; try done.
  - by rewrite Hv1.
  - intros h'. rewrite vc_at_emit.
    destruct (decide (h = h')) as [<-|Hne].
    + rewrite vc_at_update_vc_eq, vc_at_emit, Hv1, with_player_twice.
      rewrite <- Hplayer. apply with_player_same.
    + rewrite vc_at_update_vc_ne, vc_at_emit by done. unfold w1.
      by rewrite vc_at_emit, vc_at_update_vc_ne, vc_at_emit.
  - unfold w1. cbn [log emit update_vc set_voice_clients].
    by rewrite <- !app_assoc.
Qed.

(** X6: with a live session, [pause] when the player is not playing (absent
    or already paused) and [resume] when it is not paused only answer so and
    change nothing. *)
Theorem pause_resume_in_wrong_state_only_answer guild h w :
  live (voice_client (state_of guild w)) w = Some h →
  (is_playing (vc_at h w) = false →
   answers_only w (pause (Some guild) w) [EvDefer true; EvSend MsgNothingToPause true]) ∧
  (is_paused (vc_at h w) = false →
   answers_only w (resume (Some guild) w) [EvDefer true; EvSend MsgNotPaused true]).
Proof.
  intros Hlive. split; intros Hstate.
  - unfold pause.
    rewrite state_of_get_music_state, live_get_music_state, state_of_emit, live_emit.
    rewrite Hlive, vc_at_get_music_state, vc_at_emit, Hstate.
    apply answers_only_reply.
  - unfold resume.
    rewrite state_of_get_music_state, live_get_music_state, state_of_emit, live_emit.
    rewrite Hlive, vc_at_get_music_state, vc_at_emit, Hstate.
    apply answers_only_reply.
Qed.

(** ** Further properties: skip *)

Lemma skip_active guild h source w :
  live (voice_client (state_of guild w)) w = Some h →
  active_for guild source (vc_at h w) →
  skip (Some guild) w =
  emit (EvSend MsgSkipped true)
    (set_in_flight (in_flight w ++ [guild])
       (update_vc h (with_player NoPlayer) (emit (EvDefer true) w))).
Proof.
  intros Hlive Hact.
  destruct (live_after_defer guild h (EvDefer true) w Hlive) as [Hg0 Hl0].
  unfold skip. rewrite Hg0, Hl0, vc_at_emit.
  pose proof (active_is_playing_or_paused _ _ _ Hact) as Hor.
  apply orb_true_iff in Hor.
  assert (Hnot : negb (is_playing (vc_at h w)) && negb (is_paused (vc_at h w)) = false).
  { destruct Hor as [-> | ->]; [done|]. by rewrite andb_false_r. }
  rewrite Hnot. unfold vc_stop.
  by rewrite (end_player_active guild source).
Qed.

(** X7: [skip] on an active track (playing or paused) changes neither the
    queue nor the current track: it only halts the player, which hands one
    completion to the loop.  When that completion runs, the first queued track
    the encoder accepts becomes current and is played, and the tracks behind
    it stay queued; stated for no more refused tracks before it than nested
    retries fit. *)
Theorem skip_then_completion_plays_next guild h source failing next rest w :
  length failing ≤ Pos.to_nat recursion_limit →
  live (voice_client (state_of guild w)) w = Some h →
  active_for guild source (vc_at h w) →
  in_flight w = [] →
  queue (state_of guild w) = failing ++ next :: rest →
  Forall rejected failing →
  ffmpeg_accepts (stream_url next) = true →
  let skipped := skip (Some guild) w in
  let w' := deliver_completion skipped in
  (∀ g, state_of g skipped = state_of g w) ∧
  player (vc_at h skipped) = NoPlayer ∧
  in_flight skipped = [guild] ∧
  now_playing (state_of guild w') = Some next ∧
  queue (state_of guild w') = rest ∧
  player (vc_at h w') = Playing next guild ∧
  in_flight w' = [] ∧
  timers w' = timers w.
Proof.
  intros Hlen Hlive Hact Hflight Hq Hrej Hacc. cbv zeta.
  rewrite (skip_active guild h source w Hlive Hact), Hflight. simpl app.
  set (skipped := emit _ _).
  assert (Hv : vc_at h skipped = with_player NoPlayer (vc_at h w)).
  { unfold skipped.
    by rewrite vc_at_emit, vc_at_set_in_flight, vc_at_update_vc_eq, vc_at_emit. }
  split_and!; try done; try by rewrite Hv.
  all: unfold deliver_completion;
    change (in_flight skipped) with [guild]; cbv iota beta;
    set (w1 := set_in_flight [] skipped);
    pose proof Hlive as [Hvc Hconn]%live_Some;
    destruct (start_playback_first_accepted guild h failing next rest w1 Hlen)
      as (w' & -> & Hq' & Hn' & _ & _ & Hp' & _ & Hf' & Ht' & _);
    try done;
    try (apply live_Some; split; [done|];
         unfold w1; by rewrite vc_at_set_in_flight, Hv);
    try (unfold w1; by rewrite vc_at_set_in_flight, Hv).
  by rewrite Hp'.
Qed.

(** X8: [skip] with a live session but no player only answers that nothing
    is playing; on an active track with an empty queue, the completion leaves
    the guild idle (no current track, empty queue), asleep in the idle
    timer with the session still stored. *)
Theorem skip_edge_cases guild h w :
  live (voice_client (state_of guild w)) w = Some h →
  (player (vc_at h w) = NoPlayer →
   answers_only w (skip (Some guild) w) [EvDefer true; EvSend MsgNothingPlaying true]) ∧
  (∀ source,
     active_for guild source (vc_at h w) →
     in_flight w = [] →
     queue (state_of guild w) = [] →
     let w' := deliver_completion (skip (Some guild) w) in
     now_playing (state_of guild w') = None ∧
     queue (state_of guild w') = [] ∧
     voice_client (state_of guild w') = Some h ∧
     player (vc_at h w') = NoPlayer ∧
     is_connected (vc_at h w') = true ∧
     timers w' = timers w ++ [(guild, h, clock w + 5)]).
Proof.
  intros Hlive. split.
  - intros Hplayer. unfold skip.
    rewrite state_of_get_music_state, live_get_music_state, state_of_emit, live_emit.
    rewrite Hlive, vc_at_get_music_state, vc_at_emit.
    unfold is_playing, is_paused. rewrite Hplayer. apply answers_only_reply.
  - intros source Hact Hflight Hq. cbv zeta.
    rewrite (skip_active guild h source w Hlive Hact), Hflight. simpl app.
    set (skipped := emit _ _).
    assert (Hv : vc_at h skipped = with_player NoPlayer (vc_at h w)).
    { unfold skipped.
      by rewrite vc_at_emit, vc_at_set_in_flight, vc_at_update_vc_eq, vc_at_emit. }
    unfold deliver_completion.
    change (in_flight skipped) with [guild]. cbv iota beta.
    set (w1 := set_in_flight [] skipped).
    pose proof Hlive as [Hvc Hconn]%live_Some.
    assert (Hv1 : vc_at h w1 = with_player NoPlayer (vc_at h w))
      by (unfold w1; by rewrite vc_at_set_in_flight, Hv).
    destruct (start_playback_all_rejected guild h [] w1 (Nat.le_0_l _))
      as (w' & -> & Hq' & Hn' & Hvc' & _ & Hclients & _ & Ht' & _); try done.
    + apply live_Some. split; [done|]. by rewrite Hv1.
    + cbn [fst]. rewrite (vc_at_same_clients _ _ _ Hclients), Hv1.
      by split_and!.
Qed.

(** ** Further properties: join and leave *)

(** X9: [join] from a caller in no voice channel only answers so.  Without a
    live session it connects a new client, at a handle no client had, bound to
    the caller's channel and without player, and stores it, the guild's queue
    and current track being kept.  With a live session it moves that client to
    the caller's channel (also when it is already there: the answer is
    "moved"), keeping its player, and changes no guild state. *)
Theorem join_cases guild w :
  answers_only w (join (Some guild) None w)
    [EvDefer true; EvSend MsgNeedVoiceChannel true] ∧
  (∀ chan,
     live (voice_client (state_of guild w)) w = None →
     let w' := join (Some guild) (Some chan) w in
     ∃ h,
       voice_clients w !! h = None ∧
       voice_client (state_of guild w') = Some h ∧
       vc_at h w' = {| connected := true; channel := chan; player := NoPlayer |} ∧
       queue (state_of guild w') = queue (state_of guild w) ∧
       now_playing (state_of guild w') = now_playing (state_of guild w) ∧
       (∀ h', h ≠ h' → vc_at h' w' = vc_at h' w) ∧
       log w' = log w ++ [EvDefer true; EvSend (MsgJoined chan) true]) ∧
  (∀ h chan,
     live (voice_client (state_of guild w)) w = Some h →
     let w' := join (Some guild) (Some chan) w in
     channel (vc_at h w') = chan ∧
     player (vc_at h w') = player (vc_at h w) ∧
     is_connected (vc_at h w') = true ∧
     (∀ g, state_of g w' = state_of g w) ∧
     in_flight w' = in_flight w ∧
     log w' = log w ++ [EvDefer true; EvSend (MsgMoved chan) true]).
Proof.
  split_and!.
  - unfold join. apply answers_only_reply.
  - intros chan Hlive. cbv zeta. unfold join.
    set (w0 := get_music_state guild (emit (EvDefer true) w)).
    assert (Hs0 : ∀ g, state_of g w0 = state_of g w)
      by (intros; unfold w0; by rewrite state_of_get_music_state).
    assert (Hc0 : voice_clients w0 = voice_clients w)
      by (unfold w0; by rewrite voice_clients_get_music_state).
    assert (Hl0 : live (voice_client (state_of guild w0)) w0 = None).
    { unfold w0.
      by rewrite state_of_get_music_state, live_get_music_state, state_of_emit, live_emit. }
    rewrite Hl0. pose proof (vc_connect_fresh chan w0) as Hfresh.
    unfold vc_connect in *. cbn [fst] in Hfresh.
    set (h := fresh (dom (voice_clients w0))) in *.
    exists h. cbv iota beta.
    rewrite state_of_emit, state_of_update_state_eq, state_of_set_voice_clients, Hs0.
    split_and!; try done.
    + by rewrite <- Hc0.
    + rewrite vc_at_emit, vc_at_update_state. unfold vc_at.
      cbn [voice_clients set_voice_clients]. by rewrite lookup_insert_eq.
    + intros h' Hne. rewrite vc_at_emit, vc_at_update_state. unfold vc_at.
      cbn [voice_clients set_voice_clients]. by rewrite lookup_insert_ne, Hc0.
    + cbn [log emit update_state set_music_states set_voice_clients].
      unfold w0. rewrite log_get_music_state. cbn [log emit].
      by rewrite <- app_assoc.
  - intros h chan Hlive. cbv zeta.
    destruct (live_after_defer guild h (EvDefer true) w Hlive) as [Hg0 Hl0].
    unfold join. rewrite Hg0, Hl0. unfold vc_move_to.
    rewrite vc_at_emit, vc_at_update_vc_eq, vc_at_emit.
    pose proof Hlive as [_ Hconn]%live_Some.
    split_and!; try done.
    cbn [log emit update_vc set_voice_clients]. by rewrite <- app_assoc.
Qed.

Lemma start_playback_dead guild w :
  live (voice_client (state_of guild w)) w = None →
  start_playback guild w =
  (update_state guild (with_queue [])
     (update_state guild (with_now_playing None) (get_music_state guild w)), None).
Proof.
  intros Hlive. rewrite start_playback_activation. unfold start_playback_body.
  by rewrite state_of_get_music_state, live_get_music_state, Hlive.
Qed.

(** X10: [leave] while a track is active resets the guild, disconnects the
    client and, by halting the player, hands one completion to the loop; when
    that completion runs, [start_playback] finds no voice client: the guild
    stays reset, nothing is played, and no idle timer is set. *)
Theorem leave_then_completion_stays_reset guild h source w :
  live (voice_client (state_of guild w)) w = Some h →
  active_for guild source (vc_at h w) →
  in_flight w = [] →
  let gone := leave (Some guild) w in
  let w' := deliver_completion gone in
  in_flight gone = [guild] ∧
  queue (state_of guild w') = [] ∧
  now_playing (state_of guild w') = None ∧
  voice_client (state_of guild w') = None ∧
  vc_at h w' = {| connected := false; channel := channel (vc_at h w); player := NoPlayer |} ∧
  in_flight w' = [] ∧
  timers w' = timers w ∧
  log w' = log w ++ [EvDefer true; EvSend MsgLeft true].
Proof.
  intros Hlive Hact Hflight. cbv zeta.
  destruct (live_after_defer guild h (EvDefer true) w Hlive) as [Hg0 Hl0].
  assert (Hgone : leave (Some guild) w =
    emit (EvSend MsgLeft true)
      (update_state guild (with_voice_client None)
         (update_vc h (with_connected false)
            (set_in_flight [guild]
               (update_vc h (with_player NoPlayer)
                  (update_state guild (with_now_playing None)
                     (update_state guild (with_queue []) (emit (EvDefer true) w)))))))).
  { unfold leave. rewrite Hg0, Hl0. unfold vc_disconnect, vc_stop.
    rewrite (end_player_active guild source) by done.
    cbn [in_flight update_state set_music_states emit]. by rewrite Hflight. }
  rewrite Hgone. set (gone := emit _ _).
  split; [done|].
  unfold deliver_completion. change (in_flight gone) with [guild]. cbv iota beta.
  set (w1 := set_in_flight [] gone).
  assert (Hvc1 : voice_client (state_of guild w1) = None).
  { unfold w1, gone.
    by rewrite state_of_set_in_flight, state_of_emit, state_of_update_state_eq. }
  rewrite start_playback_dead by by rewrite Hvc1.
  assert (Hid : get_music_state guild w1 = w1).
  { unfold get_music_state, w1, gone.
    cbn [music_states set_in_flight emit update_state set_music_states].
    by rewrite lookup_insert_eq. }
  rewrite Hid, !state_of_update_state_eq, !vc_at_update_state.
  cbn [queue now_playing voice_client with_queue with_now_playing].
  split_and!; try done.
  - unfold w1, gone.
    rewrite vc_at_set_in_flight, vc_at_emit, vc_at_update_state, vc_at_update_vc_eq.
    by rewrite vc_at_set_in_flight, vc_at_update_vc_eq, !vc_at_update_state, vc_at_emit.
  - unfold w1, gone.
    cbn [log emit update_state set_music_states update_vc set_voice_clients
         set_in_flight].
    by rewrite <- app_assoc.
Qed.

(** ** Further properties: play *)

Lemma live_update_state_any vc guild f w :
  live vc (update_state guild f w) = live vc w.
Proof. by destruct vc. Qed.

Lemma play_reaches_resolver guild h r w :
  live (voice_client (state_of guild w)) w = Some h →
  ∃ w1,
    step w (play_input guild r) = play_resolved guild h r.1.2 (Some r.2) w1 ∧
    music_states w1 = music_states w ∧
    is_connected (vc_at h w1) = true ∧
    player (vc_at h w1) = player (vc_at h w) ∧
    (∀ h', player (vc_at h' w1) = player (vc_at h' w)) ∧
    in_flight w1 = in_flight w ∧
    timers w1 = timers w ∧
    log w1 = log w ++ [EvDefer false] ∧
    clock w1 = clock w.
Proof.
  intros Hlive. unfold step, play_input, play, play_begin.
  set (w0 := get_music_state guild (emit (EvDefer false) w)).
  destruct (live_after_defer guild h (EvDefer false) w Hlive) as [Hg0 Hl0].
  fold w0 in Hg0. rewrite <- Hg0 in Hl0.
  destruct (ensure_voice_live guild h r.1.1 w0 Hl0)
    as (w1 & Hens & Hs1 & Hc1 & Hp1 & Hf1 & Ht1 & Hlog1).
  pose proof (ensure_voice_frame guild (Some r.1.1) w0) as (_ & _ & Hp & _).
  pose proof (ensure_voice_clock guild (Some r.1.1) w0) as [Hk _].
  rewrite Hens in *. cbn [snd] in Hp, Hk.
  exists w1. rewrite Hs1, Hp1, Hf1, Ht1, Hlog1, Hk, Hg0. split_and!; try done.
  intros h'. by rewrite Hp, Hg0.
Qed.

(** X11: [play] of a query that resolves to a track, while the guild's player
    is playing or paused, appends the track at the tail of the queue and
    answers "queued"; the current track, every player and the pending
    callbacks and timers are untouched. *)
Theorem play_behind_active_track_enqueues guild h r track w :
  live (voice_client (state_of guild w)) w = Some h →
  is_playing (vc_at h w) || is_paused (vc_at h w) = true →
  resolves_to r track →
  let w' := step w (play_input guild r) in
  queue (state_of guild w') = queue (state_of guild w) ++ [track] ∧
  now_playing (state_of guild w') = now_playing (state_of guild w) ∧
  voice_client (state_of guild w') = Some h ∧
  (∀ h', player (vc_at h' w') = player (vc_at h' w)) ∧
  in_flight w' = in_flight w ∧
  timers w' = timers w ∧
  log w' = log w ++ [EvDefer false; EvSend (MsgQueued (title track)) false].
Proof.
  intros Hlive Hact [Hbuild Hurl]. cbv zeta.
  destruct (play_reaches_resolver guild h r w Hlive)
    as (w1 & -> & Hs1 & Hc1 & Hp1 & Hp & Hf1 & Ht1 & Hlog1 & Hk1).
  assert (Hbusy : negb (is_playing (vc_at h w1)) && negb (is_paused (vc_at h w1)) = false).
  { unfold is_playing, is_paused in *. rewrite Hp1.
    by destruct (player (vc_at h w)). }
  unfold play_resolved. rewrite Hbuild, Hurl. simpl negb. cbv iota.
  rewrite vc_at_update_state, Hbusy.
  rewrite state_of_emit, state_of_update_state_eq, in_flight_emit, timers_emit.
  rewrite (state_of_same_states _ _ _ Hs1).
  pose proof Hlive as [Hvc _]%live_Some.
  split_and!; try done.
  cbn [log emit update_state set_music_states]. rewrite Hlog1.
  by rewrite <- app_assoc.
Qed.

(** X12: [play] of a query that resolves to a track, on a connected guild
    with no player and an empty queue, answers "playing now" before trying to
    start the track.  If the encoder accepts the track, it becomes current and
    is played.  If the encoder refuses it, the answer stays, nothing is played,
    and the guild is idle with the idle timer set. *)
Theorem play_when_idle guild h r track w :
  live (voice_client (state_of guild w)) w = Some h →
  player (vc_at h w) = NoPlayer →
  queue (state_of guild w) = [] →
  resolves_to r track →
  let w' := step w (play_input guild r) in
  queue (state_of guild w') = [] ∧
  in_flight w' = in_flight w ∧
  if ffmpeg_accepts (stream_url track) then
    now_playing (state_of guild w') = Some track ∧
    player (vc_at h w') = Playing track guild ∧
    timers w' = timers w ∧
    log w' = log w ++ [EvDefer false; EvSend (MsgPlayingNow (title track)) false;
                       EvPrintNowPlaying guild (title track)]
  else
    now_playing (state_of guild w') = None ∧
    player (vc_at h w') = NoPlayer ∧
    timers w' = timers w ++ [(guild, h, clock w + 5)] ∧
    log w' = log w ++ [EvDefer false; EvSend (MsgPlayingNow (title track)) false;
                       EvPrintFFmpegFailed (title track)].
Proof.
  intros Hlive Hplayer Hq [Hbuild Hurl]. cbv zeta.
  destruct (play_reaches_resolver guild h r w Hlive)
    as (w1 & -> & Hs1 & Hc1 & Hp1 & Hp & Hf1 & Ht1 & Hlog1 & Hk1).
  pose proof Hlive as [Hvc _]%live_Some.
  assert (Hq1 : queue (state_of guild w1) = [])
    by by rewrite (state_of_same_states _ _ _ Hs1).
  set (w2 := emit (EvSend (MsgPlayingNow (title track)) false)
               (update_state guild (with_queue ([] ++ [track])) w1)).
  assert (Hres : play_resolved guild h r.1.2 (Some r.2) w1 =
                 match start_playback guild w2 with
                 | (w, None) => w
                 | (w, Some e) => emit (EvUncaught e) w
                 end).
  { unfold play_resolved. rewrite Hbuild, Hurl, Hq1. simpl negb. cbv iota.
    rewrite vc_at_update_state. unfold is_playing, is_paused.
    by rewrite Hp1, Hplayer. }
  rewrite Hres.
  assert (Hv2 : vc_at h w2 = vc_at h w1) by done.
  assert (Hl2 : live (voice_client (state_of guild w2)) w2 = Some h).
  { apply live_Some. unfold w2.
    rewrite state_of_emit, state_of_update_state_eq. cbn [voice_client with_queue].
    by rewrite (state_of_same_states _ _ _ Hs1). }
  assert (Hq2 : queue (state_of guild w2) = [track])
    by (unfold w2; by rewrite state_of_emit, state_of_update_state_eq).
  assert (Hlog2 : log w2 = log w ++ [EvDefer false;
                                    EvSend (MsgPlayingNow (title track)) false]).
  { unfold w2. cbn [log emit update_state set_music_states]. rewrite Hlog1.
    by rewrite <- app_assoc. }
  destruct (ffmpeg_accepts (stream_url track)) eqn:Hacc.
  - destruct (start_playback_first_accepted guild h [] track [] w2 (Nat.le_0_l _))
      as (w3 & -> & Hq3 & Hn3 & _ & _ & Hp3 & _ & Hf3 & Ht3 & Hlog3); try done.
    { unfold is_playing. by rewrite Hv2, Hp1, Hplayer. }
    assert (Ht2 : timers w2 = timers w) by (unfold w2; by rewrite timers_emit).
    rewrite Hp3, Hf3, Ht3, Ht2, Hlog3, Hlog2. split_and!; try done.
    rewrite <- app_assoc. reflexivity.
  - destruct (start_playback_all_rejected guild h [track] w2 recursion_limit_pos)
      as (w3 & -> & Hq3 & Hn3 & _ & _ & Hc3 & Hf3 & Ht3 & Hlog3); try done.
    { by apply Forall_singleton. }
    assert (Ht2 : timers w2 = timers w) by (unfold w2; by rewrite timers_emit).
    assert (Hk2 : clock w2 = clock w) by by rewrite <- Hk1.
    rewrite (vc_at_same_clients _ _ _ Hc3), Hv2, Hp1, Hf3, Ht3, Ht2, Hk2, Hlog3, Hlog2.
    split_and!; try done.
    rewrite <- app_assoc. reflexivity.
Qed.

(** X13: when the guild has no live voice session by the time the resolver
    answers (the idle timer or [leave] ran in between), [play] still answers
    "playing now", and then [start_playback] drops the new track together
    with everything that was queued: the queue ends empty, nothing is current
    and no voice client is touched. *)
Theorem play_after_session_lost_drops_queue guild vc requester info track w :
  build_track_from_info info requester = Ok track →
  truthy (stream_url track) = true →
  is_playing (vc_at vc w) = false →
  is_paused (vc_at vc w) = false →
  live (voice_client (state_of guild w)) w = None →
  let w' := play_resolved guild vc requester (Some info) w in
  queue (state_of guild w') = [] ∧
  now_playing (state_of guild w') = None ∧
  voice_clients w' = voice_clients w ∧
  in_flight w' = in_flight w ∧
  timers w' = timers w ∧
  log w' = log w ++ [EvSend (MsgPlayingNow (title track)) false].
Proof.
  intros Hbuild Hurl Hplaying Hpaused Hlive. cbv zeta.
  unfold play_resolved. rewrite Hbuild, Hurl. simpl negb. cbv iota.
  rewrite vc_at_update_state, Hplaying, Hpaused. simpl andb. cbv iota.
  rewrite start_playback_dead.
  - rewrite !state_of_update_state_eq. split_and!; try done.
    + cbn [voice_clients update_state set_music_states].
      by rewrite voice_clients_get_music_state.
    + cbn [in_flight update_state set_music_states].
      by rewrite in_flight_get_music_state.
    + cbn [timers update_state set_music_states].
      by rewrite timers_get_music_state.
    + cbn [log update_state set_music_states]. by rewrite log_get_music_state.
  - rewrite state_of_emit, state_of_update_state_eq, live_emit, live_update_state_any.
    exact Hlive.
Qed.

(** ** Further properties: a completion that comes too late, a timer that
    outlives its session *)

(** X14: when a completion is delivered while the client is already playing
    (the completion of a skipped track arriving after a new [play] started),
    [start_playback] pops the head of the queue and makes it current, but the
    client refuses to play it: the player keeps rendering its source, the
    popped track is never played, and the failure is only printed. *)
Theorem late_completion_drops_queue_head guild h source g0 track rest pending w :
  live (voice_client (state_of guild w)) w = Some h →
  player (vc_at h w) = Playing source g0 →
  in_flight w = guild :: pending →
  queue (state_of guild w) = track :: rest →
  ffmpeg_accepts (stream_url track) = true →
  let w' := deliver_completion w in
  queue (state_of guild w') = rest ∧
  now_playing (state_of guild w') = Some track ∧
  voice_clients w' = voice_clients w ∧
  in_flight w' = pending ∧
  timers w' = timers w ∧
  log w' = log w ++ [EvPrintSchedulingError].
Proof.
  intros Hlive Hplayer Hflight Hq Hacc. cbv zeta.
  unfold deliver_completion. rewrite Hflight.
  set (w1 := set_in_flight pending w).
  assert (Hl1 : live (voice_client (state_of guild w1)) w1 = Some h) by done.
  assert (Hq1 : queue (state_of guild w1) = track :: rest) by done.
  assert (Hv1 : vc_at h w1 = vc_at h w) by done.
  rewrite start_playback_activation. unfold start_playback_body.
  rewrite (live_get_music_state_id _ _ _ Hl1), Hl1, Hq1, Hacc.
  unfold vc_play. rewrite !vc_at_update_state, Hv1.
  pose proof Hlive as [_ Hconn]%live_Some. rewrite Hconn.
  unfold is_playing. rewrite Hplayer. cbn [negb].
  rewrite state_of_emit, !state_of_update_state_eq.
  by split_and!.
Qed.

(** X15: the code after the sleep uses the client it captured before
    sleeping, but clears whatever handle the guild stores by then.  When the
    guild left and joined again during the sleep, the guild stores a new,
    connected client: the re-check finds the old client without player and the
    queue empty, and clears the stored handle although the new client stays
    connected. *)
Theorem stale_idle_timer_forgets_new_session guild old new w :
  old ≠ new →
  voice_client (state_of guild w) = Some new →
  is_connected (vc_at new w) = true →
  player (vc_at old w) = NoPlayer →
  queue (state_of guild w) = [] →
  let w' := idle_recheck guild old w in
  voice_client (state_of guild w') = None ∧
  vc_at new w' = vc_at new w ∧
  is_connected (vc_at new w') = true ∧
  live (voice_client (state_of guild w')) w' = None.
Proof.
  intros Hne Hvc Hconn Hplayer Hq. cbv zeta.
  rewrite idle_recheck_eq. unfold is_playing.
  rewrite Hplayer, Hq. cbn [negb andb queue_is_empty].
  rewrite state_of_update_state_eq, vc_at_update_state.
  assert (Hnew : vc_at new (vc_disconnect old w) = vc_at new w).
  { unfold vc_disconnect, vc_stop, end_player. rewrite Hplayer.
    by rewrite vc_at_update_vc_ne. }
  rewrite Hnew. by split_and!.
Qed.

(** ** Further properties: a playback error is handled as a completion *)

Lemma sbl_state_of g a b : same_but_log a b → state_of g a = state_of g b.
Proof. intros (H & _). unfold state_of. by rewrite H. Qed.

Lemma sbl_vc_at h a b : same_but_log a b → vc_at h a = vc_at h b.
Proof. intros (_ & H & _). unfold vc_at. by rewrite H. Qed.

Lemma sbl_live vc a b : same_but_log a b → live vc a = live vc b.
Proof. intros H. destruct vc as [h|]; [|done]. cbn. by rewrite (sbl_vc_at h a b H). Qed.

Lemma in_step_start w1 w2 : same_but_log w1 w2 → in_step w1 w1 w2 w2.
Proof. intros H. split; [done|]. exists []. by rewrite !app_nil_r. Qed.

Lemma in_step_emit w1 a w2 b e :
  in_step w1 a w2 b → in_step w1 (emit e a) w2 (emit e b).
Proof.
  intros [Hs (ev & Ha & Hb)]. split; [done|]. exists (ev ++ [e]).
  cbn [log emit]. by rewrite Ha, Hb, <- !app_assoc.
Qed.

Lemma in_step_get_music_state w1 a w2 b g :
  in_step w1 a w2 b → in_step w1 (get_music_state g a) w2 (get_music_state g b).
Proof.
  intros [Hs (ev & Ha & Hb)]. pose proof Hs as (Hm & Hv & Hf & Ht & Hc & Hk).
  unfold get_music_state. rewrite <- Hm.
  destruct (music_states a !! g); [by split; [|exists ev]|].
  split; [|by exists ev]. unfold same_but_log. cbn. by rewrite Hm.
Qed.

Lemma in_step_update_state w1 a w2 b g f :
  in_step w1 a w2 b → in_step w1 (update_state g f a) w2 (update_state g f b).
Proof.
  intros [Hs (ev & Ha & Hb)]. pose proof Hs as (Hm & Hv & Hf & Ht & Hc & Hk).
  split; [|by exists ev]. unfold same_but_log. cbn.
  by rewrite (sbl_state_of g a b Hs), Hm.
Qed.

Lemma in_step_update_vc w1 a w2 b h f :
  in_step w1 a w2 b → in_step w1 (update_vc h f a) w2 (update_vc h f b).
Proof.
  intros [Hs (ev & Ha & Hb)]. pose proof Hs as (Hm & Hv & Hf & Ht & Hc & Hk).
  split; [|by exists ev]. unfold same_but_log. cbn.
  by rewrite (sbl_vc_at h a b Hs), Hv.
Qed.

Lemma in_step_set_timers w1 a w2 b g h :
  in_step w1 a w2 b →
  in_step w1 (set_timers (timers a ++ [(g, h, clock a + 5)]) a)
          w2 (set_timers (timers b ++ [(g, h, clock b + 5)]) b).
Proof.
  intros [Hs (ev & Ha & Hb)]. pose proof Hs as (Hm & Hv & Hf & Ht & Hc & Hk).
  split; [|by exists ev]. unfold same_but_log. cbn. by rewrite Ht, Hk.
Qed.

Lemma same_but_log_body guild w1 w2 :
  same_but_log w1 w2 →
  match start_playback_body guild w1, start_playback_body guild w2 with
  | Returned a, Returned b | Again a, Again b => in_step w1 a w2 b
  | Raised e a, Raised e' b => e = e' ∧ in_step w1 a w2 b
  | _, _ => False
  end.
Proof.
  intros Hs. unfold start_playback_body.
  pose proof (in_step_get_music_state w1 w1 w2 w2 guild (in_step_start _ _ Hs)) as H0.
  set (a0 := get_music_state guild w1) in *.
  set (b0 := get_music_state guild w2) in *.
  pose proof H0 as [Hs0 _].
  rewrite <- (sbl_state_of guild a0 b0 Hs0), <- (sbl_live _ a0 b0 Hs0).
  destruct (live _ a0) as [vc|].
  - destruct (queue (state_of guild a0)) as [|track rest].
    + by apply in_step_set_timers, in_step_update_state.
    + destruct (ffmpeg_accepts _).
      * unfold vc_play. rewrite !vc_at_update_state, <- (sbl_vc_at vc a0 b0 Hs0).
        destruct (negb _); [split; [done|]; by do 2 apply in_step_update_state|].
        destruct (is_playing _); [split; [done|]; by do 2 apply in_step_update_state|].
        by apply in_step_emit, in_step_update_vc, in_step_update_state,
          in_step_update_state.
      * by apply in_step_emit, in_step_update_state, in_step_update_state.
  - by do 2 apply in_step_update_state.
Qed.

Lemma in_step_trans w1 a a' w2 b b' :
  in_step w1 a w2 b → in_step a a' b b' → in_step w1 a' w2 b'.
Proof.
  intros [_ (ev & Ha & Hb)] [Hs (ev' & Ha' & Hb')]. split; [done|].
  exists (ev ++ ev'). by rewrite Ha', Hb', Ha, Hb, <- !app_assoc.
Qed.

Lemma same_but_log_start_playback_nested guild depth : ∀ w1 w2,
  same_but_log w1 w2 →
  (start_playback_nested depth guild w1).2 = (start_playback_nested depth guild w2).2 ∧
  in_step w1 (start_playback_nested depth guild w1).1
          w2 (start_playback_nested depth guild w2).1.
Proof.
  induction depth as [|depth IH]; intros w1 w2 Hs;
    rewrite (start_playback_nested_activation _ guild w1),
      (start_playback_nested_activation _ guild w2);
    pose proof (same_but_log_body guild w1 w2 Hs) as Hrel;
    destruct (start_playback_body guild w1) as [a|e a|a];
    destruct (start_playback_body guild w2) as [b|e' b|b]; try done.
  - by destruct Hrel as [-> ?].
  - by destruct Hrel as [-> ?].
  - destruct (IH a b (proj1 Hrel)) as [He Hstep].
    split; [done|]. by apply (in_step_trans _ a _ _ b).
Qed.

Lemma same_but_log_start_playback guild w1 w2 :
  same_but_log w1 w2 →
  (start_playback guild w1).2 = (start_playback guild w2).2 ∧
  in_step w1 (start_playback guild w1).1 w2 (start_playback guild w2).1.
Proof. apply same_but_log_start_playback_nested. Qed.

(** X16: a track that ends with a playback error is handled exactly as a
    track that ends normally: after the completion has run, every guild's
    state, every voice client and the pending callbacks and timers are the
    same in both cases; the only difference is the error line printed before
    everything else. *)
Theorem playback_error_is_handled_as_completion h source g0 w :
  player (vc_at h w) = Playing source g0 →
  let ended := deliver_completion (track_ended h false w) in
  let failed := deliver_completion (track_ended h true w) in
  same_but_log ended failed ∧
  ∃ events,
    log ended = log w ++ events ∧
    log failed = log w ++ EvPrintPlaybackError (title source) :: events.
Proof.
  intros Hplayer. cbv zeta. unfold track_ended. rewrite Hplayer.
  rewrite (end_player_active g0 source h w) by by left.
  rewrite (end_player_active g0 source h (emit _ w)) by by left.
  set (a := set_in_flight _ (update_vc _ _ w)).
  set (b := set_in_flight _ (update_vc _ _ (emit _ w))).
  assert (Hs : same_but_log a b) by done.
  unfold deliver_completion.
  change (in_flight b) with (in_flight a).
  destruct (in_flight a) as [|g rest] eqn:Hfl.
  { split; [done|]. exists []. by rewrite app_nil_r. }
  assert (Hs' : same_but_log (set_in_flight rest a) (set_in_flight rest b)) by done.
  destruct (same_but_log_start_playback g _ _ Hs') as [He [Hsame (ev & Ha & Hb)]].
  destruct (start_playback g (set_in_flight rest a)) as [a' ea],
           (start_playback g (set_in_flight rest b)) as [b' eb].
  cbn [fst snd] in *. subst eb.
  change (log (set_in_flight rest a)) with (log w) in Ha.
  change (log (set_in_flight rest b))
    with (log w ++ [EvPrintPlaybackError (title source)]) in Hb.
  destruct ea as [e|].
  - split; [done|]. exists (ev ++ [EvPrintSchedulingError]). cbn [log emit].
    rewrite Ha, Hb, <- !app_assoc. done.
  - split; [done|]. exists ev. rewrite Ha, Hb, <- !app_assoc. done.
Qed.

(** ** Further properties: the queue listing *)

Lemma queue_dur_typed track :
  typed_duration track → ∃ dur, queue_dur track = Ok dur.
Proof.
  unfold queue_dur. intros [-> | [d ->]]; [by eexists|].
  cbn. destruct (negb _); by eexists.
Qed.

Lemma queue_lines_typed : ∀ tracks idx,
  Forall typed_duration tracks →
  ∃ lines,
    queue_lines idx tracks = Ok lines ∧
    length lines = length tracks ∧
    ∀ i line, lines !! i = Some line →
      ∃ t, tracks !! i = Some t ∧
           line.1.1 = fmt_02d (idx + Z.of_nat i) ∧
           line.1.2 = title t ∧
           queue_dur t = Ok line.2.
Proof.
  induction tracks as [|track tracks IH]; intros idx Htyped.
  - exists []. by split_and!.
  - apply Forall_cons in Htyped as [Ht Htyped].
    destruct (queue_dur_typed track Ht) as [dur Hdur].
    destruct (IH (idx + 1)%Z Htyped) as (lines & Hlines & Hlen & Hnth).
    exists ((fmt_02d idx, title track, dur) :: lines).
    cbn [queue_lines]. rewrite Hdur, Hlines. split_and!; try done.
    + cbn [length]. by rewrite Hlen.
    + intros [|i] line Hi.
      * injection Hi as <-. exists track. cbn. by rewrite Z.add_0_r.
      * destruct (Hnth i line Hi) as (t & Ht' & Hidx & Htitle & Hd).
        exists t. split_and!; try done.
        rewrite Hidx. f_equal. lia.
Qed.

(** What [queue] prints for a duration: question marks when it is [None] or
    zero, minutes and seconds otherwise. *)
Lemma queue_dur_format track dur :
  queue_dur track = Ok dur →
  (duration track = PyNone ∨ duration track = PyInt 0 → dur = "??:??") ∧
  (∀ d, duration track = PyInt d → d ≠ 0%Z →
     dur = fmt_02d (d `div` 60) +:+ ":" +:+ fmt_02d (d `mod` 60)).
Proof.
  unfold queue_dur, truthy. destruct (duration track) as [|n| | |] eqn:Hd.
  - intros [= <-]. split; [done|]. intros ? [=].
  - destruct (n =? 0)%Z eqn:Hz; cbn [negb].
    + apply Z.eqb_eq in Hz as ->. intros [= <-]. split; [done|].
      intros ? [= <-] Hne. done.
    + apply Z.eqb_neq in Hz. intros [= <-]. split.
      * intros [[=] | [= ->]]. done.
      * intros ? [= <-] _. done.
  - destruct (negb _); [discriminate|]. intros [= <-]. split; [done|]. intros ? [=].
  - destruct (negb _); [discriminate|]. intros [= <-]. split; [done|]. intros ? [=].
  - destruct (negb _); [discriminate|]. intros [= <-]. split; [done|]. intros ? [=].
Qed.

(** X17: [queue] on an empty queue answers that it is empty.  On a non-empty
    queue whose first ten tracks have a duration that is [None] or an integer,
    it answers with one line per track for the first ten tracks at most, in
    queue order, numbered from 01, each with the track's title and its
    duration: question marks when the duration is [None] or zero, and
    otherwise the minutes and the seconds, each on two digits at least, with
    a colon between them. *)
Theorem queue_cmd_lists_first_ten guild w :
  (queue (state_of guild w) = [] →
   log (queue_cmd (Some guild) w) = log w ++ [EvDefer true; EvSend MsgQueueEmpty true]) ∧
  (queue (state_of guild w) ≠ [] →
   Forall typed_duration (take 10 (queue (state_of guild w))) →
   ∃ lines,
     log (queue_cmd (Some guild) w) =
       log w ++ [EvDefer true; EvSend (MsgQueueLines lines) true] ∧
     length lines = min 10 (length (queue (state_of guild w))) ∧
     ∀ i line, lines !! i = Some line →
       ∃ t, queue (state_of guild w) !! i = Some t ∧
            line.1.1 = fmt_02d (Z.of_nat i + 1) ∧
            line.1.2 = title t ∧
            (duration t = PyNone ∨ duration t = PyInt 0 → line.2 = "??:??") ∧
            (∀ d, duration t = PyInt d → d ≠ 0%Z →
               line.2 = fmt_02d (d `div` 60) +:+ ":" +:+ fmt_02d (d `mod` 60))).
Proof.
  unfold queue_cmd. rewrite state_of_get_music_state, state_of_emit. split.
  - intros ->. cbn [queue_is_empty log emit]. rewrite log_get_music_state.
    cbn [log emit]. by rewrite <- app_assoc.
  - intros Hne Htyped.
    destruct (queue_lines_typed _ 1%Z Htyped) as (lines & -> & Hlen & Hnth).
    destruct (queue (state_of guild w)) as [|t0 q] eqn:Hq; [done|].
    cbn [queue_is_empty]. exists lines. split_and!.
    + cbn [log emit]. rewrite log_get_music_state. cbn [log emit].
      by rewrite <- app_assoc.
    + by rewrite Hlen, length_take.
    + intros i line Hi. destruct (Hnth i line Hi) as (t & Ht & Hidx & Htitle & Hd).
      destruct (queue_dur_format t line.2 Hd) as [Hunknown Hknown].
      exists t. split_and!; try done.
      * apply lookup_take_Some in Ht. by destruct Ht.
      * rewrite Hidx. f_equal. lia.
Qed.

(** ** Further properties: the shape of a formatted duration *)

Lemma string_length_app s1 s2 :
  String.length (s1 +:+ s2) = String.length s1 + String.length s2.
Proof.
  induction s1 as [|c s1 IH]; [done|].
  change (String.length (String c s1 +:+ s2)) with (S (String.length (s1 +:+ s2))).
  by rewrite IH.
Qed.

Lemma fmt_02d_two_digits n :
  (0 ≤ n < 100)%Z → String.length (fmt_02d n) = 2.
Proof.
  intros Hn.
  assert (Hall : forallb (λ k, Nat.eqb (String.length (fmt_02d (Z.of_nat k))) 2)
                   (seq 0 100) = true) by (vm_compute; reflexivity).
  rewrite forallb_forall in Hall.
  specialize (Hall (Z.to_nat n)).
  rewrite Z2Nat.id in Hall by lia.
  apply Nat.eqb_eq, Hall, in_seq. lia.
Qed.

(** X18: in a formatted duration the seconds always take two characters, and
    so do the minutes of a duration from 0 to 99 min 59 s: such a duration is
    printed on five characters, [MM:SS]. *)
Theorem fmt_duration_shape d :
  String.length (fmt_02d (d `mod` 60)) = 2 ∧
  ((0 ≤ d < 6000)%Z → String.length (fmt_duration d) = 5).
Proof.
  assert (Hsec : String.length (fmt_02d (d `mod` 60)) = 2).
  { apply fmt_02d_two_digits. pose proof (Z.mod_pos_bound d 60). lia. }
  split; [done|]. intros Hd. unfold fmt_duration.
  rewrite !string_length_app, Hsec, fmt_02d_two_digits; [done|].
  split; [apply Z.div_pos; lia | apply Z.div_lt_upper_bound; lia].
Qed.

(** ** Further properties: only usable tracks are queued *)

Lemma all_usable_same w w' :
  (∀ g, state_of g w' = state_of g w) → all_usable w → all_usable w'.
Proof. intros Hs Hw g. rewrite Hs. apply Hw. Qed.

Lemma all_usable_update guild f w :
  usable_state (f (state_of guild w)) → all_usable w →
  all_usable (update_state guild f w).
Proof.
  intros Hf Hw g. destruct (decide (guild = g)) as [<-|Hne].
  - by rewrite state_of_update_state_eq.
  - rewrite state_of_update_state_ne by done. apply Hw.
Qed.

Lemma all_usable_emit e w : all_usable w → all_usable (emit e w).
Proof. by apply all_usable_same. Qed.

Lemma all_usable_set_timers l w : all_usable w → all_usable (set_timers l w).
Proof. by apply all_usable_same. Qed.

Lemma all_usable_set_closing l w : all_usable w → all_usable (set_closing l w).
Proof. by apply all_usable_same. Qed.

Lemma all_usable_set_clock t w : all_usable w → all_usable (set_clock t w).
Proof. by apply all_usable_same. Qed.

Lemma all_usable_set_in_flight l w : all_usable w → all_usable (set_in_flight l w).
Proof. by apply all_usable_same. Qed.

Lemma all_usable_update_vc h f w : all_usable w → all_usable (update_vc h f w).
Proof. by apply all_usable_same. Qed.

Lemma all_usable_set_voice_clients m w : all_usable w → all_usable (set_voice_clients m w).
Proof. by apply all_usable_same. Qed.

Lemma all_usable_get_music_state g w : all_usable w → all_usable (get_music_state g w).
Proof. apply all_usable_same. intros. apply state_of_get_music_state. Qed.

Lemma all_usable_end_player h w : all_usable w → all_usable (end_player h w).
Proof. apply all_usable_same. intros. apply state_of_end_player. Qed.

Lemma all_usable_vc_stop h w : all_usable w → all_usable (vc_stop h w).
Proof. apply all_usable_end_player. Qed.

Lemma all_usable_vc_disconnect h w : all_usable w → all_usable (vc_disconnect h w).
Proof. apply all_usable_same. intros. apply state_of_vc_disconnect. Qed.

Lemma all_usable_vc_pause h w : all_usable w → all_usable (vc_pause h w).
Proof. apply all_usable_same. intros. apply state_of_vc_pause. Qed.

Lemma all_usable_vc_resume h w : all_usable w → all_usable (vc_resume h w).
Proof. apply all_usable_same. intros. apply state_of_vc_resume. Qed.

Lemma all_usable_vc_move_to h c w : all_usable w → all_usable (vc_move_to h c w).
Proof. by apply all_usable_same. Qed.

Lemma all_usable_clear_queue guild w :
  all_usable w → all_usable (update_state guild (with_queue []) w).
Proof.
  intros Hw. apply all_usable_update; [|done].
  split; [constructor|]. apply (Hw guild).
Qed.

Lemma all_usable_clear_current guild w :
  all_usable w → all_usable (update_state guild (with_now_playing None) w).
Proof.
  intros Hw. apply all_usable_update; [|done].
  split; [apply (Hw guild)|]. by intros t [=].
Qed.

Lemma all_usable_store_client guild h w :
  all_usable w → all_usable (update_state guild (with_voice_client h) w).
Proof. intros Hw. apply all_usable_update; [|done]. apply (Hw guild). Qed.

Lemma all_usable_pop guild track rest w :
  queue (state_of guild w) = track :: rest →
  all_usable w →
  all_usable (update_state guild (with_now_playing (Some track))
                (update_state guild (with_queue rest) w)).
Proof.
  intros Hq Hw. destruct (Hw guild) as [Hqueue _]. rewrite Hq in Hqueue.
  apply Forall_cons in Hqueue as [Htrack Hrest].
  apply all_usable_update.
  - rewrite state_of_update_state_eq. split; [done|]. by intros t [= <-].
  - apply all_usable_update; [|done]. split; [done|]. apply (Hw guild).
Qed.

Lemma all_usable_append guild track w :
  usable track →
  all_usable w →
  all_usable (update_state guild (with_queue (queue (state_of guild w) ++ [track])) w).
Proof.
  intros Htrack Hw. apply all_usable_update; [|done].
  destruct (Hw guild) as [Hqueue Hcurrent]. split; [|done].
  apply Forall_app. split; [done|]. by apply Forall_singleton.
Qed.

Create HintDb usable.
#[local] Hint Resolve all_usable_emit all_usable_set_timers all_usable_set_closing
  all_usable_set_clock all_usable_set_in_flight
  all_usable_update_vc all_usable_set_voice_clients all_usable_get_music_state
  all_usable_end_player all_usable_vc_stop all_usable_vc_disconnect
  all_usable_vc_pause all_usable_vc_resume all_usable_vc_move_to
  all_usable_clear_queue all_usable_clear_current all_usable_store_client : usable.

Lemma all_usable_start_playback_body guild w :
  all_usable w → all_usable (activation_world (start_playback_body guild w)).
Proof.
  intros Hw. unfold start_playback_body.
  destruct (live _ _) as [vc|]; [|cbn; auto with usable].
  destruct (queue (state_of guild (get_music_state guild w))) as [|track rest] eqn:Hq;
    [cbn; auto with usable|].
  assert (Hpop : all_usable
            (update_state guild (with_now_playing (Some track))
               (update_state guild (with_queue rest) (get_music_state guild w))))
    by (apply all_usable_pop; auto with usable).
  destruct (ffmpeg_accepts _); [|cbn; auto with usable].
  unfold vc_play. destruct (negb _); [done|]. destruct (is_playing _); [done|].
  cbn. auto with usable.
Qed.

Lemma all_usable_start_playback guild w :
  all_usable w → all_usable (start_playback guild w).1.
Proof.
  unfold start_playback. generalize (Pos.to_nat recursion_limit). intros depth.
  revert w. induction depth as [|depth IH]; intros w Hw;
    rewrite start_playback_nested_activation;
    pose proof (all_usable_start_playback_body guild w Hw) as Hstep;
    destruct (start_playback_body guild w) as [a|e a|a];
    cbn [activation_world fst] in *; auto.
Qed.

Lemma all_usable_after_start_playback guild w :
  all_usable w →
  all_usable match start_playback guild w with
             | (w', None) => w'
             | (w', Some e) => emit (EvUncaught e) w'
             end.
Proof.
  intros Hw. pose proof (all_usable_start_playback guild w Hw) as H.
  destruct (start_playback guild w) as [w' [e|]]; cbn [fst] in H; auto with usable.
Qed.

(** X19: every track in a queue, and every current track, has a truthy
    stream URL: this holds in the initial world and is kept by every step of
    the bot (commands, track ends, completions, idle timers and the ends of
    their disconnects), hence in every world the bot reaches. *)
Theorem queued_tracks_are_usable :
  all_usable empty_world ∧
  (∀ w i, all_usable w → all_usable (step w i)) ∧
  (∀ inputs, all_usable (run empty_world inputs)).
Proof.
  assert (H0 : all_usable empty_world).
  { intros g. split; [constructor|]. by intros t [=]. }
  assert (Hstep : ∀ w i, all_usable w → all_usable (step w i)).
  { intros w i Hw. destruct i; cbn [step].
    - unfold join, vc_connect. split_matches; auto 8 with usable.
    - unfold leave. split_matches; auto 8 with usable.
    - unfold play, play_begin. destruct guild as [guild|]; [|auto with usable].
      assert (Hens : all_usable
                (ensure_voice guild user_channel
                   (get_music_state guild (emit (EvDefer false) w))).2).
      { unfold ensure_voice, vc_connect. split_matches; cbn [snd]; auto 8 with usable. }
      destruct (ensure_voice _ _ _) as [[vc|] w1]; cbn [snd] in Hens; [|done].
      unfold play_resolved. destruct info as [info|]; [|auto with usable].
      destruct (build_track_from_info _ _) as [track|e]; [|auto with usable].
      destruct (truthy (stream_url track)) eqn:Hurl; [|cbn; auto with usable].
      cbn [negb].
      assert (Happ : all_usable
                (update_state guild
                   (with_queue (queue (state_of guild w1) ++ [track])) w1))
        by by apply all_usable_append.
      destruct (_ && _); [|auto with usable].
      apply all_usable_after_start_playback. auto with usable.
    - unfold skip. split_matches; auto 8 with usable.
    - unfold pause. split_matches; auto 8 with usable.
    - unfold resume. split_matches; auto 8 with usable.
    - unfold stop, stop_halt, stop_clear. split_matches; auto 8 with usable.
    - unfold now_playing_cmd. split_matches; auto 8 with usable.
    - unfold queue_cmd. split_matches; auto 8 with usable.
    - unfold track_ended. split_matches; auto 8 with usable.
    - unfold deliver_completion. destruct (in_flight w) as [|g rest]; [done|].
      pose proof (all_usable_start_playback g (set_in_flight rest w)) as H.
      destruct (start_playback g _) as [w' [e|]]; cbn [fst] in H; auto with usable.
    - unfold elapse. auto with usable.
    - unfold grace_elapsed, idle_recheck_begin. split_matches; auto 8 with usable.
    - unfold disconnect_completed, idle_recheck_end.
      split_matches; auto 8 with usable. }
  split; [done|]. split; [done|].
  intros inputs. unfold run. generalize empty_world H0.
  induction inputs as [|i inputs IH]; intros w Hw; cbn [foldl]; auto.
Qed.

End Bot.

(** * Instances on the sample data *)

Lemma stop_then_completion_is_idle_sample :
  live (voice_client (state_of 1 sample_playing)) sample_playing = Some 0 ∧
  active_for 1 song_a (vc_at 0 sample_playing) ∧
  let idle := deliver_completion accept_all default_depth (stop (Some 1%Z) sample_playing) in
  queue (state_of 1 idle) = [] ∧ now_playing (state_of 1 idle) = None.
Proof.
  assert (H1 : live (voice_client (state_of 1 sample_playing)) sample_playing = Some 0)
    by (vm_compute; reflexivity).
  assert (H2 : active_for 1 song_a (vc_at 0 sample_playing))
    by (left; vm_compute; reflexivity).
  split; [exact H1|]. split; [exact H2|].
  destruct (stop_then_completion_is_idle accept_all default_depth 1 0 song_a sample_playing
              H1 H2 eq_refl) as (_ & _ & _ & _ & Hq & Hn & _).
  split; [exact Hq | exact Hn].
Defined.

Lemma idle_grace_period_recheck_sample :
  let sleeping := (start_playback accept_all default_depth 1 sample_idle).1 in
  let request := (7, 42%Z, info_of "song-a" "stream-a") in
  live (voice_client (state_of 1 sample_idle)) sample_idle = Some 0 ∧
  resolves_to request song_a ∧
  timers sleeping = [(1%Z, 0, 5)] ∧
  grace_elapsed (elapse 4 sleeping) = elapse 4 sleeping ∧
  voice_client
    (state_of 1 (run accept_all default_depth sleeping
                   [play_input 1 request; Elapse 5; GraceElapsed])) = Some 0 ∧
  is_connected
    (vc_at 0 (run accept_all default_depth sleeping
                [play_input 1 request; Elapse 5; GraceElapsed])) = true ∧
  is_connected
    (vc_at 0 (run accept_all default_depth sleeping [Elapse 5; GraceElapsed])) = false ∧
  voice_client
    (state_of 1 (run accept_all default_depth sleeping [Elapse 5; GraceElapsed])) = Some 0 ∧
  voice_client
    (state_of 1 (step accept_all default_depth
                   (run accept_all default_depth sleeping [Elapse 5; GraceElapsed])
                   Disconnected)) = None.
Proof.
  pose proof (idle_grace_period_recheck accept_all default_depth 1 0 sample_idle) as H.
  assert (H1 : live (voice_client (state_of 1 sample_idle)) sample_idle = Some 0)
    by (vm_compute; reflexivity).
  assert (H2 : queue (state_of 1 sample_idle) = []) by (vm_compute; reflexivity).
  assert (H3 : player (vc_at 0 sample_idle) = NoPlayer) by (vm_compute; reflexivity).
  assert (H4 : resolves_to (7, 42%Z, info_of "song-a" "stream-a") song_a)
    by (split; vm_compute; reflexivity).
  assert (H5 : 4 < 5) by lia.
  destruct (H H1 H2 H3 eq_refl eq_refl)
    as ((_ & Ht & _) & Hwait & _ & _ & Hplay & Hclosed).
  destruct (Hplay _ song_a H4 eq_refl) as (_ & _ & Hconn & Hkept & _).
  destruct Hclosed as (Hc3 & Hv3 & _ & Hv4).
  cbv zeta. split; [exact H1|]. split; [exact H4|]. split; [exact Ht|].
  split; [exact (Hwait 4 H5)|]. split; [exact Hkept|]. split; [exact Hconn|].
  split; [exact Hc3|]. split; [exact Hv3 | exact Hv4].
Defined.

(** Against C2 as stated: a track is enqueued and starts playing one second
    into the sleep, and ends two seconds later; when the five seconds are
    over the session is closed all the same. *)
Lemma short_track_in_grace_window_session_closed :
  let sleeping := (start_playback accept_all default_depth 1 sample_idle).1 in
  let enqueued :=
    run accept_all default_depth sleeping
      [Elapse 1; Play (Some 1%Z) (Some 7) 42 (Some (info_of "song-a" "stream-a"))] in
  (timers sleeping = [(1%Z, 0, 5)] ∧
   clock enqueued = 1 ∧
   now_playing (state_of 1 enqueued) = Some song_a ∧
   is_playing (vc_at 0 enqueued) = true ∧
   timers enqueued = [(1%Z, 0, 5)]) ∧
  let w := run accept_all default_depth enqueued
             [Elapse 2; TrackEnded 0 false; Completion; Elapse 2; GraceElapsed] in
  clock w = 5 ∧
  is_connected (vc_at 0 w) = false ∧
  voice_client (state_of 1 (step accept_all default_depth w Disconnected)) = None.
Proof. vm_compute. repeat split. Qed.


Lemma start_playback_without_session_sample :
  voice_client (state_of 1 sample_disconnected) = Some 0 ∧
  is_connected (vc_at 0 sample_disconnected) = false ∧
  queue (state_of 1 sample_disconnected) = [song_b; song_c] ∧
  now_playing (state_of 1 sample_disconnected) = Some song_a ∧
  ∃ w', start_playback accept_all default_depth 1 sample_disconnected = (w', None) ∧
        now_playing (state_of 1 w') = None ∧
        queue (state_of 1 w') = [] ∧
        voice_client (state_of 1 w') = Some 0 ∧
        voice_clients w' = voice_clients sample_disconnected ∧
        timers w' = [].
Proof.
  assert (H1 : voice_client (state_of 1 sample_disconnected) = Some 0)
    by (vm_compute; reflexivity).
  assert (H2 : is_connected (vc_at 0 sample_disconnected) = false)
    by (vm_compute; reflexivity).
  split; [exact H1|]. split; [exact H2|].
  split; [vm_compute; reflexivity|]. split; [vm_compute; reflexivity|].
  destruct (start_playback_without_session accept_all default_depth 1 sample_disconnected
              (or_intror (ex_intro _ 0 (conj H1 H2))))
    as (w' & Hw & Hn & Hq & Hvc & Hclients & _ & Ht & _).
  exists w'. split; [exact Hw|]. split; [exact Hn|]. split; [exact Hq|].
  split; [rewrite Hvc; exact H1|]. split; [exact Hclients | exact Ht].
Defined.

Lemma start_playback_retries_within_limit_sample :
  Forall (rejected refuse_bad) [broken_1; broken_2] ∧
  ∃ w', start_playback refuse_bad default_depth 1 sample_broken_queue = (w', None) ∧
        now_playing (state_of 1 w') = Some song_a ∧
        queue (state_of 1 w') = [song_b].
Proof.
  assert (Hrej : Forall (rejected refuse_bad) [broken_1; broken_2])
    by (repeat (constructor; [reflexivity|]); constructor).
  split; [exact Hrej|].
  assert (H0 : length [broken_1; broken_2] ≤ Pos.to_nat default_depth)
    by (vm_compute; lia).
  assert (H1 : live (voice_client (state_of 1 sample_broken_queue)) sample_broken_queue
               = Some 0) by (vm_compute; reflexivity).
  assert (H2 : is_playing (vc_at 0 sample_broken_queue) = false)
    by (vm_compute; reflexivity).
  assert (H3 : queue (state_of 1 sample_broken_queue) =
               [broken_1; broken_2] ++ [song_a; song_b]) by (vm_compute; reflexivity).
  destruct (start_playback_retries_within_limit refuse_bad default_depth 1 0
              [broken_1; broken_2] [song_a; song_b] sample_broken_queue
              H0 H1 H2 H3 Hrej eq_refl)
    as (w' & Hw & _ & Hq & Hn & _).
  exists w'. split; [exact Hw|]. split; [exact Hn | exact Hq].
Defined.

Lemma start_playback_recursion_error_sample :
  length (replicate 988 broken_1) = S (Pos.to_nat default_depth) ∧
  Forall (rejected refuse_bad) (replicate 988 broken_1) ∧
  ∃ w', start_playback refuse_bad default_depth 1 sample_long_broken_queue =
          (w', Some RecursionError) ∧
        queue (state_of 1 w') = [song_a; song_b] ∧
        now_playing (state_of 1 w') = Some broken_1 ∧
        player (vc_at 0 w') = NoPlayer ∧
        timers w' = [].
Proof.
  assert (Hlen : length (replicate 988 broken_1) = S (Pos.to_nat default_depth))
    by (vm_compute; reflexivity).
  assert (Hrej : Forall (rejected refuse_bad) (replicate 988 broken_1))
    by (apply Forall_replicate; reflexivity).
  split; [exact Hlen|]. split; [exact Hrej|].
  assert (H1 : live (voice_client (state_of 1 sample_long_broken_queue))
                 sample_long_broken_queue = Some 0) by (vm_compute; reflexivity).
  assert (H2 : queue (state_of 1 sample_long_broken_queue) =
               replicate 988 broken_1 ++ [song_a; song_b]) by (vm_compute; reflexivity).
  destruct (start_playback_recursion_error refuse_bad default_depth 1 0
              (replicate 988 broken_1) [song_a; song_b] sample_long_broken_queue
              H1 H2 Hrej Hlen)
    as (w' & Hw & Hq & Hn & _ & Hclients & _ & Ht & _).
  exists w'. split; [exact Hw|]. split; [exact Hq|].
  split; [rewrite Hn; vm_compute; reflexivity|].
  split; [unfold vc_at; rewrite Hclients; vm_compute; reflexivity | exact Ht].
Defined.

Lemma leave_stop_and_idle_disconnect_reset_sample :
  live (voice_client (state_of 1 sample_idle)) sample_idle = Some 0 ∧
  voice_client (state_of 1 (leave (Some 1%Z) sample_idle)) = None ∧
  voice_client (state_of 1 (stop (Some 1%Z) sample_idle)) = Some 0 ∧
  voice_client
    (state_of 1 (idle_recheck 1 0 (start_playback accept_all default_depth 1 sample_idle).1)) = None.
Proof.
  assert (H1 : live (voice_client (state_of 1 sample_idle)) sample_idle = Some 0)
    by (vm_compute; reflexivity).
  pose proof (leave_stop_and_idle_disconnect_reset accept_all default_depth 1 0 sample_idle H1)
    as ((_ & _ & Hleave & _) & (_ & _ & Hstop & _) & Hidle & _).
  destruct (Hidle eq_refl eq_refl) as (_ & _ & Hclosed & _).
  split; [exact H1|]. split; [exact Hleave|]. split; [exact Hstop | exact Hclosed].
Defined.

(** Against C6 as stated: [stop] keeps the stored voice client. *)
Lemma stop_keeps_voice_client :
  live (voice_client (state_of 1 sample_playing)) sample_playing = Some 0 ∧
  voice_client (state_of 1 (stop (Some 1%Z) sample_playing)) ≠ None.
Proof. split; [vm_compute; reflexivity|]. vm_compute. discriminate. Qed.

Lemma play_resolution_failure_keeps_queue_sample :
  build_track_from_info no_url_info 42 =
    Ok {| title := PyStr "song-x"; stream_url := PyNone; webpage_url := PyStr "";
          duration := PyNone; requester_id := 42 |} ∧
  (∀ g, queue (state_of g (play accept_all default_depth (Some 1%Z) (Some 7) 42 (Some no_url_info)
                             sample_playing)) =
        queue (state_of g sample_playing)) ∧
  (∀ g, queue (state_of g (play accept_all default_depth (Some 1%Z) (Some 7) 42 None sample_playing)) =
        queue (state_of g sample_playing)).
Proof.
  assert (Hb : build_track_from_info no_url_info 42 =
    Ok {| title := PyStr "song-x"; stream_url := PyNone; webpage_url := PyStr "";
          duration := PyNone; requester_id := 42 |}) by (vm_compute; reflexivity).
  split; [exact Hb|]. split.
  - refine (proj1 (play_resolution_failure_keeps_queue accept_all default_depth (Some 1%Z) (Some 7) 42
             (Some no_url_info) sample_playing _)).
    right. eexists _, _. split; [reflexivity|]. split; [exact Hb | reflexivity].
  - refine (proj1 (play_resolution_failure_keeps_queue accept_all default_depth (Some 1%Z) (Some 7) 42
             None sample_playing _)).
    left. reflexivity.
Defined.

Lemma ensure_voice_cases_sample :
  (ensure_voice 1 None sample_playing).1 = None ∧
  (∃ w', ensure_voice 1 (Some 9) sample_playing = (Some 0, w') ∧
         channel (vc_at 0 w') = 9 ∧
         music_states w' = music_states sample_playing) ∧
  ensure_voice 1 (Some 7) sample_playing = (Some 0, sample_playing).
Proof.
  pose proof (ensure_voice_cases 1 sample_playing) as (Hnone & Hmove & Hsame).
  assert (H1 : live (voice_client (state_of 1 sample_playing)) sample_playing = Some 0)
    by (vm_compute; reflexivity).
  split; [|split].
  - exact (proj2 (Hnone None) eq_refl).
  - destruct (Hmove 0 9 H1) as (w' & Hw & Hc & _ & _ & Hs).
    + vm_compute. discriminate.
    + exists w'. split; [exact Hw|]. split; [exact Hc | exact Hs].
  - refine (Hsame 0 7 H1 _). vm_compute. reflexivity.
Defined.

Lemma empty_entries_raise_index_error_sample :
  empty_search !! "entries" = Some (PyList []) ∧
  build_track_from_info empty_search 42 = Raise IndexError.
Proof.
  assert (H1 : empty_search !! "entries" = Some (PyList []))
    by (vm_compute; reflexivity).
  split; [exact H1|].
  exact (proj1 (empty_entries_raise_index_error accept_all default_depth empty_search 42 H1)).
Defined.

Lemma zero_duration_reports_disagree_sample :
  duration silent_track = PyInt 0 ∧
  now_playing_duration_str silent_track = Ok "00:00" ∧
  queue_dur silent_track = Ok "??:??".
Proof.
  split; [reflexivity|].
  destruct (zero_duration_reports_disagree silent_track eq_refl)
    as (H1 & H2 & _).
  split; [exact H1 | exact H2].
Defined.

Lemma get_music_state_creates_once_sample :
  music_states empty_world !! 5%Z = None ∧
  music_states (get_music_state 5 empty_world) !! 5%Z = Some GuildMusicState_init ∧
  music_states (get_music_state 5 sample_playing) !! 1%Z =
    music_states sample_playing !! 1%Z.
Proof.
  destruct (get_music_state_creates_once 5 empty_world) as (H1 & H2 & _).
  destruct (get_music_state_creates_once 5 sample_playing) as (_ & _ & H3 & _).
  split; [reflexivity|]. split.
  - rewrite H1, (H2 eq_refl). reflexivity.
  - apply H3; discriminate.
Defined.

Lemma commands_touch_only_their_guild_sample :
  is_command_of 2 (Stop (Some 2%Z)) ∧
  state_of 1 (step accept_all default_depth sample_playing (Stop (Some 2%Z))) =
  state_of 1 sample_playing.
Proof.
  split; [reflexivity|].
  apply (commands_touch_only_their_guild accept_all default_depth 2 1 (Stop (Some 2%Z)) sample_playing);
    [reflexivity | discriminate].
Defined.

Lemma commands_without_session_only_answer_sample :
  live (voice_client (state_of 5 sample_playing)) sample_playing = None ∧
  answers_only sample_playing (stop (Some 5%Z) sample_playing)
    [EvDefer true; EvSend MsgNotInVoice true].
Proof.
  assert (H1 : live (voice_client (state_of 5 sample_playing)) sample_playing = None)
    by (vm_compute; reflexivity).
  split; [exact H1|].
  destruct (commands_without_session_only_answer 5 sample_playing H1)
    as (_ & _ & _ & _ & H).
  exact H.
Defined.

Lemma pause_then_resume_restores_sample :
  player (vc_at 0 sample_playing) = Playing song_a 1 ∧
  player (vc_at 0 (pause (Some 1%Z) sample_playing)) = Paused song_a 1 ∧
  vc_at 0 (resume (Some 1%Z) (pause (Some 1%Z) sample_playing)) = vc_at 0 sample_playing.
Proof.
  assert (H1 : live (voice_client (state_of 1 sample_playing)) sample_playing = Some 0)
    by (vm_compute; reflexivity).
  assert (H2 : player (vc_at 0 sample_playing) = Playing song_a 1)
    by (vm_compute; reflexivity).
  destruct (pause_then_resume_restores 1 0 song_a 1 sample_playing H1 H2)
    as (Hp & _ & _ & Hv & _).
  split; [exact H2|]. split; [exact Hp | exact (Hv 0)].
Defined.

Lemma pause_resume_in_wrong_state_only_answer_sample :
  is_playing (vc_at 0 sample_idle) = false ∧
  answers_only sample_idle (pause (Some 1%Z) sample_idle)
    [EvDefer true; EvSend MsgNothingToPause true] ∧
  answers_only sample_playing (resume (Some 1%Z) sample_playing)
    [EvDefer true; EvSend MsgNotPaused true].
Proof.
  assert (H1 : live (voice_client (state_of 1 sample_idle)) sample_idle = Some 0)
    by (vm_compute; reflexivity).
  assert (H2 : live (voice_client (state_of 1 sample_playing)) sample_playing = Some 0)
    by (vm_compute; reflexivity).
  assert (H3 : is_playing (vc_at 0 sample_idle) = false) by (vm_compute; reflexivity).
  assert (H4 : is_paused (vc_at 0 sample_playing) = false) by (vm_compute; reflexivity).
  split; [exact H3|]. split.
  - exact (proj1 (pause_resume_in_wrong_state_only_answer 1 0 sample_idle H1) H3).
  - exact (proj2 (pause_resume_in_wrong_state_only_answer 1 0 sample_playing H2) H4).
Defined.

Lemma skip_then_completion_plays_next_sample :
  let w := sample_world (Playing song_c 1) [broken_1; song_a; song_b] (Some song_c) in
  let w' := deliver_completion refuse_bad default_depth (skip (Some 1%Z) w) in
  queue (state_of 1 w) = [broken_1] ++ song_a :: [song_b] ∧
  now_playing (state_of 1 w') = Some song_a ∧
  queue (state_of 1 w') = [song_b].
Proof.
  set (w := sample_world (Playing song_c 1) [broken_1; song_a; song_b] (Some song_c)).
  assert (H1 : live (voice_client (state_of 1 w)) w = Some 0) by (vm_compute; reflexivity).
  assert (H2 : active_for 1 song_c (vc_at 0 w)) by (left; vm_compute; reflexivity).
  assert (H3 : queue (state_of 1 w) = [broken_1] ++ song_a :: [song_b])
    by (vm_compute; reflexivity).
  assert (H4 : Forall (rejected refuse_bad) [broken_1])
    by (repeat (constructor; [reflexivity|]); constructor).
  assert (H0 : length [broken_1] ≤ Pos.to_nat default_depth) by (vm_compute; lia).
  destruct (skip_then_completion_plays_next refuse_bad default_depth 1 0 song_c [broken_1] song_a
              [song_b] w H0 H1 H2 eq_refl H3 H4 eq_refl)
    as (_ & _ & _ & Hn & Hq & _).
  cbv zeta. split; [exact H3|]. split; [exact Hn | exact Hq].
Defined.

Lemma skip_edge_cases_sample :
  player (vc_at 0 sample_idle) = NoPlayer ∧
  answers_only sample_idle (skip (Some 1%Z) sample_idle)
    [EvDefer true; EvSend MsgNothingPlaying true] ∧
  timers (deliver_completion accept_all default_depth (skip (Some 1%Z) sample_playing)) = [(1%Z, 0, 5)].
Proof.
  assert (H1 : live (voice_client (state_of 1 sample_idle)) sample_idle = Some 0)
    by (vm_compute; reflexivity).
  assert (H2 : live (voice_client (state_of 1 sample_playing)) sample_playing = Some 0)
    by (vm_compute; reflexivity).
  assert (H3 : player (vc_at 0 sample_idle) = NoPlayer) by (vm_compute; reflexivity).
  assert (H4 : active_for 1 song_a (vc_at 0 sample_playing))
    by (left; vm_compute; reflexivity).
  split; [exact H3|]. split.
  - exact (proj1 (skip_edge_cases accept_all default_depth 1 0 sample_idle H1) H3).
  - destruct (proj2 (skip_edge_cases accept_all default_depth 1 0 sample_playing H2) song_a H4
                eq_refl eq_refl) as (_ & _ & _ & _ & _ & Ht).
    exact Ht.
Defined.

Lemma join_cases_sample :
  (∃ h, voice_client (state_of 5 (join (Some 5%Z) (Some 3) sample_playing)) = Some h ∧
        vc_at h (join (Some 5%Z) (Some 3) sample_playing) =
        {| connected := true; channel := 3; player := NoPlayer |}) ∧
  channel (vc_at 0 (join (Some 1%Z) (Some 3) sample_playing)) = 3 ∧
  player (vc_at 0 (join (Some 1%Z) (Some 3) sample_playing)) = Playing song_a 1.
Proof.
  assert (H1 : live (voice_client (state_of 5 sample_playing)) sample_playing = None)
    by (vm_compute; reflexivity).
  assert (H2 : live (voice_client (state_of 1 sample_playing)) sample_playing = Some 0)
    by (vm_compute; reflexivity).
  split.
  - destruct (join_cases 5 sample_playing) as (_ & Hnew & _).
    destruct (Hnew 3 H1) as (h & _ & Hvc & Hat & _).
    exists h. split; [exact Hvc | exact Hat].
  - destruct (join_cases 1 sample_playing) as (_ & _ & Hmove).
    destruct (Hmove 0 3 H2) as (Hc & Hp & _).
    split; [exact Hc|]. rewrite Hp. vm_compute. reflexivity.
Defined.

Lemma leave_then_completion_stays_reset_sample :
  active_for 1 song_a (vc_at 0 sample_playing) ∧
  let w' := deliver_completion accept_all default_depth (leave (Some 1%Z) sample_playing) in
  voice_client (state_of 1 w') = None ∧ timers w' = [].
Proof.
  assert (H1 : live (voice_client (state_of 1 sample_playing)) sample_playing = Some 0)
    by (vm_compute; reflexivity).
  assert (H2 : active_for 1 song_a (vc_at 0 sample_playing))
    by (left; vm_compute; reflexivity).
  split; [exact H2|].
  destruct (leave_then_completion_stays_reset accept_all default_depth 1 0 song_a sample_playing
              H1 H2 eq_refl) as (_ & _ & _ & Hvc & _ & _ & Ht & _).
  split; [exact Hvc | exact Ht].
Defined.

Lemma play_behind_active_track_enqueues_sample :
  resolves_to (7, 42%Z, info_of "song-b" "stream-b") song_b ∧
  queue (state_of 1 (step accept_all default_depth sample_playing
                       (play_input 1 (7, 42%Z, info_of "song-b" "stream-b")))) =
  queue (state_of 1 sample_playing) ++ [song_b].
Proof.
  assert (H1 : live (voice_client (state_of 1 sample_playing)) sample_playing = Some 0)
    by (vm_compute; reflexivity).
  assert (H2 : is_playing (vc_at 0 sample_playing) || is_paused (vc_at 0 sample_playing)
               = true) by (vm_compute; reflexivity).
  assert (H3 : resolves_to (7, 42%Z, info_of "song-b" "stream-b") song_b)
    by (split; vm_compute; reflexivity).
  split; [exact H3|].
  exact (proj1 (play_behind_active_track_enqueues accept_all default_depth 1 0 _ song_b
                  sample_playing H1 H2 H3)).
Defined.

Lemma play_when_idle_sample :
  resolves_to (7, 42%Z, info_of "broken-1" "bad") broken_1 ∧
  queue (state_of 1 (step refuse_bad default_depth sample_idle
                       (play_input 1 (7, 42%Z, info_of "broken-1" "bad")))) = [] ∧
  queue (state_of 1 (step accept_all default_depth sample_idle
                       (play_input 1 (7, 42%Z, info_of "broken-1" "bad")))) = [].
Proof.
  assert (H1 : live (voice_client (state_of 1 sample_idle)) sample_idle = Some 0)
    by (vm_compute; reflexivity).
  assert (H2 : resolves_to (7, 42%Z, info_of "broken-1" "bad") broken_1)
    by (split; vm_compute; reflexivity).
  split; [exact H2|]. split.
  - exact (proj1 (play_when_idle refuse_bad default_depth 1 0 _ broken_1 sample_idle
                    H1 eq_refl eq_refl H2)).
  - exact (proj1 (play_when_idle accept_all default_depth 1 0 _ broken_1 sample_idle
                    H1 eq_refl eq_refl H2)).
Defined.

Lemma play_after_session_lost_drops_queue_sample :
  let begun := (play_begin (Some 1%Z) (Some 7)
                  (start_playback accept_all default_depth 1 sample_idle).1).2 in
  let closed := grace_elapsed (elapse 5 begun) in
  live (voice_client (state_of 1 closed)) closed = None ∧
  queue (state_of 1 (play_resolved accept_all default_depth 1 0 42
                       (Some (info_of "song-a" "stream-a")) closed)) = [].
Proof.
  set (begun := (play_begin (Some 1%Z) (Some 7)
                   (start_playback accept_all default_depth 1 sample_idle).1).2).
  set (closed := grace_elapsed (elapse 5 begun)).
  assert (H1 : live (voice_client (state_of 1 closed)) closed = None)
    by (vm_compute; reflexivity).
  assert (H2 : build_track_from_info (info_of "song-a" "stream-a") 42 = Ok song_a)
    by (vm_compute; reflexivity).
  assert (H3 : is_playing (vc_at 0 closed) = false) by (vm_compute; reflexivity).
  assert (H4 : is_paused (vc_at 0 closed) = false) by (vm_compute; reflexivity).
  cbv zeta. split; [exact H1|].
  exact (proj1 (play_after_session_lost_drops_queue accept_all default_depth 1 0 42 _ song_a closed
                  H2 eq_refl H3 H4 H1)).
Defined.

Lemma late_completion_drops_queue_head_sample :
  let w := set_in_flight [1%Z] (sample_world (Playing song_a 1) [song_b; song_c]
                                  (Some song_a)) in
  in_flight w = [1%Z] ∧
  queue (state_of 1 (deliver_completion accept_all default_depth w)) = [song_c] ∧
  voice_clients (deliver_completion accept_all default_depth w) = voice_clients w.
Proof.
  set (w := set_in_flight [1%Z] (sample_world (Playing song_a 1) [song_b; song_c]
                                   (Some song_a))).
  assert (H1 : live (voice_client (state_of 1 w)) w = Some 0) by (vm_compute; reflexivity).
  assert (H2 : player (vc_at 0 w) = Playing song_a 1) by (vm_compute; reflexivity).
  assert (H3 : queue (state_of 1 w) = song_b :: [song_c]) by (vm_compute; reflexivity).
  destruct (late_completion_drops_queue_head accept_all default_depth 1 0 song_a 1 song_b [song_c] []
              w H1 H2 eq_refl H3 eq_refl) as (Hq & _ & Hc & _).
  cbv zeta. split; [reflexivity|]. split; [exact Hq | exact Hc].
Defined.

Lemma stale_idle_timer_forgets_new_session_sample :
  let sleeping := (start_playback accept_all default_depth 1 sample_idle).1 in
  let rejoined := join (Some 1%Z) (Some 7) (leave (Some 1%Z) sleeping) in
  voice_client (state_of 1 rejoined) = Some 1 ∧
  is_connected (vc_at 1 rejoined) = true ∧
  timers rejoined = [(1%Z, 0, 5)] ∧
  voice_client (state_of 1 (idle_recheck 1 0 rejoined)) = None ∧
  is_connected (vc_at 1 (idle_recheck 1 0 rejoined)) = true.
Proof.
  set (sleeping := (start_playback accept_all default_depth 1 sample_idle).1).
  set (rejoined := join (Some 1%Z) (Some 7) (leave (Some 1%Z) sleeping)).
  assert (H1 : voice_client (state_of 1 rejoined) = Some 1) by (vm_compute; reflexivity).
  assert (H2 : is_connected (vc_at 1 rejoined) = true) by (vm_compute; reflexivity).
  assert (H3 : player (vc_at 0 rejoined) = NoPlayer) by (vm_compute; reflexivity).
  assert (H4 : queue (state_of 1 rejoined) = []) by (vm_compute; reflexivity).
  assert (H5 : timers rejoined = [(1%Z, 0, 5)]) by (vm_compute; reflexivity).
  assert (Hne : 0 ≠ 1) by discriminate.
  destruct (stale_idle_timer_forgets_new_session 1 0 1 rejoined Hne H1 H2 H3 H4)
    as (Hvc & _ & Hc & _).
  cbv zeta. split; [exact H1|]. split; [exact H2|]. split; [exact H5|].
  split; [exact Hvc | exact Hc].
Defined.

Lemma playback_error_is_handled_as_completion_sample :
  let w := sample_world (Playing song_a 1) [song_b] (Some song_a) in
  player (vc_at 0 w) = Playing song_a 1 ∧
  same_but_log (deliver_completion accept_all default_depth (track_ended 0 false w))
               (deliver_completion accept_all default_depth (track_ended 0 true w)).
Proof.
  set (w := sample_world (Playing song_a 1) [song_b] (Some song_a)).
  assert (H1 : player (vc_at 0 w) = Playing song_a 1) by (vm_compute; reflexivity).
  cbv zeta. split; [exact H1|].
  exact (proj1 (playback_error_is_handled_as_completion accept_all default_depth 0 song_a 1 w H1)).
Defined.

Lemma queue_cmd_lists_first_ten_sample :
  let w := sample_world NoPlayer [song_a; silent_track; timed_track] None in
  Forall typed_duration (take 10 (queue (state_of 1 w))) ∧
  ∃ lines,
    log (queue_cmd (Some 1%Z) w) = log w ++ [EvDefer true; EvSend (MsgQueueLines lines) true] ∧
    length lines = 3 ∧
    (∀ line, lines !! 1 = Some line → line = ("02", PyStr "silence", "??:??")) ∧
    (∀ line, lines !! 2 = Some line → line = ("03", PyStr "timed", "03:35")).
Proof.
  set (w := sample_world NoPlayer [song_a; silent_track; timed_track] None).
  assert (H1 : queue (state_of 1 w) ≠ []) by (vm_compute; discriminate).
  assert (H2 : Forall typed_duration (take 10 (queue (state_of 1 w)))).
  { change (take 10 (queue (state_of 1 w))) with [song_a; silent_track; timed_track].
    constructor; [by left|]. constructor; [right; by exists 0%Z|].
    constructor; [right; by exists 215%Z|]. constructor. }
  cbv zeta. split; [exact H2|].
  destruct (proj2 (queue_cmd_lists_first_ten 1 w) H1 H2) as (lines & Hlog & Hlen & Hnth).
  exists lines. split; [exact Hlog|]. split; [exact Hlen|]. split.
  - intros [[num name] dur] Hline.
    destruct (Hnth 1 _ Hline) as (t & Ht & Hnum & Hname & Hunknown & _).
    change (queue (state_of 1 w) !! 1) with (Some silent_track) in Ht.
    injection Ht as <-. cbn [fst snd] in *.
    rewrite Hnum, Hname, (Hunknown (or_intror eq_refl)). reflexivity.
  - intros [[num name] dur] Hline.
    destruct (Hnth 2 _ Hline) as (t & Ht & Hnum & Hname & _ & Hknown).
    change (queue (state_of 1 w) !! 2) with (Some timed_track) in Ht.
    injection Ht as <-. cbn [fst snd] in *.
    rewrite Hnum, Hname, (Hknown 215%Z eq_refl); [|discriminate]. vm_compute. reflexivity.
Defined.

Lemma fmt_duration_shape_sample :
  (0 ≤ 3599 < 6000)%Z ∧ String.length (fmt_duration 3599) = 5.
Proof.
  assert (H : (0 ≤ 3599 < 6000)%Z) by lia.
  split; [exact H|]. exact (proj2 (fmt_duration_shape 3599) H).
Defined.

Lemma queued_tracks_are_usable_sample :
  all_usable (run refuse_bad default_depth empty_world
                [Play (Some 1%Z) (Some 7) 42 (Some (info_of "song-a" "stream-a"));
                 Play (Some 1%Z) (Some 7) 42 (Some no_url_info);
                 Play (Some 1%Z) (Some 7) 42 (Some (info_of "broken-1" "bad"));
                 Skip (Some 1%Z); Completion]).
Proof.
  destruct (queued_tracks_are_usable refuse_bad default_depth) as (_ & _ & H). apply H.
Defined.
